(** * grammar.py: bounded search of the sentences of a context free grammar

    A shallow embedding of [Grammar] and [Rule] of [grammar.py], and the
    properties of the engine checked against it.

    Python values are modelled as follows.
    - [str] is [string] (sequences of 8-bit characters).
    - A call either returns, raises, or leaves the part of Python that is
      modelled here: [outcome].
    - The library calls the script makes ([str.split], [str.join], [in] on
      strings, [re.findall]) are modelled in [Module Py]. *)

From Stdlib Require Import String Ascii List ZArith Lia Bool Arith.
Import ListNotations.
Open Scope string_scope.
Open Scope list_scope.

(** ** Outcomes of a call *)

Inductive exn : Set :=
| ValueError
| GrammarError.

Inductive outcome (A : Type) : Type :=
| Returns (a : A)
| Raises (e : exn)
| Unmodelled.

Arguments Returns {A} a.
Arguments Raises {A} e.
Arguments Unmodelled {A}.

Definition bind {A B : Type} (m : outcome A) (k : A -> outcome B) : outcome B :=
  match m with
  | Returns a => k a
  | Raises e => Raises e
  | Unmodelled => Unmodelled
  end.

Notation "x <- m ;; k" := (bind m (fun x => k))
  (at level 61, m at next level, right associativity).

(** [for x in xs: acc = body acc x], stopping at the first call that does
    not return. *)
Fixpoint for_each {A X : Type} (xs : list X) (acc : A)
         (body : A -> X -> outcome A) : outcome A :=
  match xs with
  | [] => Returns acc
  | x :: xs' => acc' <- body acc x ;; for_each xs' acc' body
  end.

(** [[f x for x in xs]]. *)
Fixpoint comprehension {A X : Type} (f : X -> outcome A) (xs : list X)
  : outcome (list A) :=
  match xs with
  | [] => Returns []
  | x :: xs' => y <- f x ;; ys <- comprehension f xs' ;; Returns (y :: ys)
  end.

(** [range(n)] for a Python integer [n]: empty when [n <= 0]. *)
Definition range (n : Z) : list nat := seq 0 (Z.to_nat n).

(** [bool(l)] for a list. *)
Definition truthy {A : Type} (l : list A) : bool :=
  match l with
  | [] => false
  | _ :: _ => true
  end.

(** ** The Python library calls of the script *)

Module Py.

(** [w[:n]] and [w[n:]] for [0 <= n]. *)
Fixpoint take (n : nat) (w : string) : string :=
  match n, w with
  | S k, String c w' => String c (take k w')
  | _, _ => ""
  end.

Fixpoint drop (n : nat) (w : string) : string :=
  match n, w with
  | S k, String _ w' => drop k w'
  | _, _ => w
  end.

(** [sep.join(parts)]. *)
Definition join (sep : string) (parts : list string) : string :=
  String.concat sep parts.

(** [x in a], on strings. *)
Fixpoint contains (x a : string) : bool :=
  prefix x a ||
  match a with
  | "" => false
  | String _ a' => contains x a'
  end.

(** The leftmost occurrence of [sep] in [w]: the text before it and the
    text after it. *)
Fixpoint cut (sep w : string) : option (string * string) :=
  if prefix sep w then Some ("", drop (String.length sep) w)
  else
    match w with
    | "" => None
    | String c w' =>
        match cut sep w' with
        | Some (before, after) => Some (String c before, after)
        | None => None
        end
    end.

(** [w.split(sep, maxsplit)] for a non-empty [sep]: at most [maxsplit]
    cuts, each at the leftmost occurrence in what is left. *)
Fixpoint split_upto (sep w : string) (maxsplit : nat) : list string :=
  match maxsplit with
  | O => [w]
  | S m =>
      match cut sep w with
      | Some (before, after) => before :: split_upto sep after m
      | None => [w]
      end
  end.

(** [sys.maxsize] of a 64-bit CPython, the largest [Py_ssize_t]. *)
Definition maxsize : Z := 9223372036854775807.

(** [w.split(sep, maxsplit)]; a negative [maxsplit] (the default is -1)
    means no limit, and no string has more cuts than characters. An empty
    separator is refused. The model is for [maxsplit <= maxsize]: beyond
    it CPython raises OverflowError, which is not modelled (no string is
    longer than [maxsize], so no call of the script passes more). *)
Definition split (w sep : string) (maxsplit : Z) : outcome (list string) :=
  if (sep =? "")%string then Raises ValueError
  else
    Returns (split_upto sep w
               (if (maxsplit <? 0)%Z then String.length w
                else Z.to_nat maxsplit)).

(** *** [re]: patterns that are a sequence of one-character items

    [sre_parse] reads an ordinary character as a literal and [.] as any
    character but a newline. The other special characters (escapes,
    classes, groups, repeats, anchors, alternation) are not modelled. *)

Inductive re_item : Set :=
| LITERAL (c : ascii)
| ANY.

Definition SPECIAL_CHARS : list ascii :=
  ["."; "\"; "["; "{"; "("; ")"; "*"; "+"; "?"; "^"; "$"; "|"]%char.

Definition is_special (c : ascii) : bool :=
  existsb (Ascii.eqb c) SPECIAL_CHARS.

Fixpoint sre_parse (pattern : string) : outcome (list re_item) :=
  match pattern with
  | "" => Returns []
  | String c rest =>
      if Ascii.eqb c "."%char then
        items <- sre_parse rest ;; Returns (ANY :: items)
      else if is_special c then Unmodelled
      else items <- sre_parse rest ;; Returns (LITERAL c :: items)
  end.

Definition newline : ascii := ascii_of_nat 10.

Definition item_matches (it : re_item) (c : ascii) : bool :=
  match it with
  | LITERAL d => Ascii.eqb c d
  | ANY => negb (Ascii.eqb c newline)
  end.

(** The pattern matches at the start of [w]. *)
Fixpoint match_here (pat : list re_item) (w : string) : bool :=
  match pat, w with
  | [], _ => true
  | it :: pat', String c w' => item_matches it c && match_here pat' w'
  | _ :: _, "" => false
  end.

(** The matches found scanning [w] from the left; [skip] characters of
    the last match are still to be passed over. An empty pattern matches
    at every position, the end included. *)
Fixpoint scan (pat : list re_item) (skip : nat) (w : string) : list string :=
  match w with
  | "" => match pat with
          | [] => [""]
          | _ :: _ => []
          end
  | String _ w' =>
      match skip with
      | S k => scan pat k w'
      | O =>
          if match_here pat w
          then take (length pat) w :: scan pat (length pat - 1) w'
          else scan pat 0 w'
      end
  end.

(** [re.findall(pattern, w)]. *)
Definition findall (pattern w : string) : outcome (list string) :=
  pat <- sre_parse pattern ;; Returns (scan pat 0 w).

End Py.

(** ** Constants *)

Definition ARROW_SEPERATOR : string := " -> ".
Definition RULE_DELIMETER : string := " | ".

(** ** class Rule *)

Module Rule.

Record t : Set := mk { symbol : string; patterns : list string }.

(** [symbol, patterns = string.split(ARROW_SEPERATOR)] then
    [patterns = patterns.split(RULE_DELIMETER)]. Unpacking anything but
    two parts raises ValueError. *)
Definition string_to_rule_info (string : string)
  : outcome (String.string * list String.string) :=
  parts <- Py.split string ARROW_SEPERATOR (-1) ;;
  match parts with
  | [symbol; patterns] =>
      patterns <- Py.split patterns RULE_DELIMETER (-1) ;;
      Returns (symbol, patterns)
  | _ => Raises ValueError
  end.

(** [Rule(symbol=..., patterns=..., string=...)]. A rule left with [None]
    for its symbol or its patterns is outside the model. *)
Definition init (symbol : option string) (patterns : option (list string))
           (string : option String.string) : outcome t :=
  match string with
  | Some s =>
      info <- string_to_rule_info s ;;
      Returns (mk (fst info) (snd info))
  | None =>
      match symbol, patterns with
      | Some symbol, Some patterns => Returns (mk symbol patterns)
      | _, _ => Unmodelled
      end
  end.

(** [*splits, tail = parts]. *)
Definition unpack_star_last (parts : list string)
  : outcome (list string * string) :=
  match parts with
  | [] => Raises ValueError
  | _ :: _ => Returns (removelast parts, last parts "")
  end.

(** [__replace_nth_substring], for [0 <= n] with [n + 1 <= Py.maxsize]
    (see [Py.split]); [get_children] calls it with [n] below the number of
    matches, which is at most the length of the sentence. *)
Definition replace_nth_substring
           (string substring replacement_string : String.string) (n : nat)
  : outcome String.string :=
  parts <- Py.split string substring (Z.of_nat n + 1) ;;
  st <- unpack_star_last parts ;;
  Returns (Py.join replacement_string
             [Py.join substring (fst st); snd st]).

Definition get_children (self : t) (node : string) : outcome (list string) :=
  found <- Py.findall (symbol self) node ;;
  let symbol_count := length found in
  for_each (seq 0 symbol_count) []
    (fun children i =>
       for_each (patterns self) children
         (fun children pattern =>
            child <- replace_nth_substring node (symbol self) pattern i ;;
            Returns (children ++ [child]))).

(** [Rule.__string_to_rule]: the text is read, then the constructor is
    called with the symbol and the patterns. *)
Definition string_to_rule (string : String.string) : outcome t :=
  info <- string_to_rule_info string ;;
  init (Some (fst info)) (Some (snd info)) None.

End Rule.

(** ** class Grammar *)

Module Grammar.

Record t : Set := mk { rules : list Rule.t }.

Definition strings_to_rules (strings : list string) : outcome (list Rule.t) :=
  comprehension (fun x => Rule.init None None (Some x)) strings.

Definition init (rules : option (list Rule.t))
           (string_rules : option (list string)) : outcome t :=
  match string_rules with
  | Some string_rules =>
      rules <- strings_to_rules string_rules ;; Returns (mk rules)
  | None =>
      match rules with
      | Some rules => Returns (mk rules)
      | None => Raises GrammarError
      end
  end.

Definition get_symbols (self : t) : list string :=
  fold_left (fun rule_symbols rule => rule_symbols ++ [Rule.symbol rule])
            (rules self) [].

Definition default_root (self : t) : string :=
  Py.join "" (get_symbols self).

Definition get_children (self : t) (node : string) : outcome (list string) :=
  for_each (rules self) []
    (fun children rule =>
       more <- Rule.get_children rule node ;;
       Returns (children ++ more)).

(** The filter of [possible_strings]:
    [lambda a: bool([x for x in rule_symbols if x not in a])]. *)
Definition is_terminal (rule_symbols : list string) (a : string) : bool :=
  truthy (filter (fun x => negb (Py.contains x a)) rule_symbols).

(** One round of the search loop: the children of every node of the last
    level become the next level. *)
Definition next_level (self : t) (levels : list (list string))
  : outcome (list (list string)) :=
  level_strings <-
    for_each (last levels []) []
      (fun level_strings node =>
         more <- get_children self node ;;
         Returns (level_strings ++ more)) ;;
  Returns (levels ++ [level_strings]).

Definition possible_strings (self : t) (search_depth : Z)
           (root : option string) : outcome (list string) :=
  let root := match root with
              | None => default_root self
              | Some root => root
              end in
  levels <-
    for_each (range search_depth) [[root]]
      (fun levels _ => next_level self levels) ;;
  let all_nodes := fold_left (fun all_nodes x => all_nodes ++ x) levels [] in
  let rule_symbols := get_symbols self in
  Returns (filter (is_terminal rule_symbols) all_nodes).

End Grammar.

(** ** Running the script's own example *)

Definition example_grammar : outcome Grammar.t :=
  Grammar.init None (Some ["A -> 0 | 1 | 0A | 1A"]).

(** ** What the claims speak of

    Definitions that follow the words of the specification, to be compared
    with the code above. *)

(** [x] occurs in [w] as a literal substring. *)
Definition is_substring (x w : string) : Prop :=
  exists before after : string, w = (before ++ x ++ after)%string.

(** The start offsets of the occurrences of [s] in [w] found by a literal
    scan from the left that resumes behind each occurrence; [pos] is the
    offset of the head of [w] and [skip] what is left of the occurrence
    being passed over. *)
Fixpoint occurrences_from (s : string) (skip pos : nat) (w : string)
  : list nat :=
  match w with
  | "" => []
  | String _ w' =>
      match skip with
      | S k => occurrences_from s k (S pos) w'
      | O =>
          if prefix s w
          then pos :: occurrences_from s (String.length s - 1) (S pos) w'
          else occurrences_from s 0 (S pos) w'
      end
  end.

Definition occurrences (s w : string) : list nat := occurrences_from s 0 0 w.

(** [w] with the [len] characters at offset [pos] replaced by [p]. *)
Definition replace_at (w : string) (pos len : nat) (p : string) : string :=
  (Py.take pos w ++ p ++ Py.drop (pos + len) w)%string.

(** [w] with only the [i]-th occurrence of [s] replaced by [p]. *)
Definition replace_occurrence (s w : string) (i : nat) (p : string) : string :=
  replace_at w (nth i (occurrences s w) 0) (String.length s) p.

(** A symbol that [re] reads as itself: no special character in it. *)
Definition plain (s : string) : bool :=
  forallb (fun c => negb (Py.is_special c)) (list_ascii_of_string s).

(** What section 4.1 asks of one rule on one sentence. *)
Definition expands_one_step (r : Rule.t) (w : string) : Prop :=
  exists children : list string,
    Rule.get_children r w = Returns children /\
    let k := length (occurrences (Rule.symbol r) w) in
    let P := Rule.patterns r in
    length children = k * length P /\
    forall i j : nat, i < k -> j < length P ->
      nth (i * length P + j) children "" =
      replace_occurrence (Rule.symbol r) w i (nth j P "").

(** What [re] makes of such a symbol: one literal per character. *)
Definition literals (s : string) : list Py.re_item :=
  map Py.LITERAL (list_ascii_of_string s).

(** A symbol that is not empty and has no special character. *)
Definition ordinary (s : string) : bool :=
  negb (s =? "")%string && plain s.

Definition ordinary_grammar (g : Grammar.t) : bool :=
  forallb (fun r => ordinary (Rule.symbol r)) (Grammar.rules g).

(** The occurrences of a scan lie [len] or more apart. *)
Fixpoint apart (len : nat) (l : list nat) : Prop :=
  match l with
  | [] => True
  | p :: l' => Forall (fun q => p + len <= q) l' /\ apart len l'
  end.

(** What section 4.1 asks of a rule whose symbol is absent. *)
Definition nothing_without_the_symbol (r : Rule.t) : Prop :=
  (forall w : string,
      ~ is_substring (Rule.symbol r) w -> Rule.get_children r w = Returns [])
  /\ Rule.get_children r "" = Returns [].

(** What section 4.2 asks of [children]. *)
Definition children_are_concatenated (g : Grammar.t) (w : string) : Prop :=
  Grammar.get_children g w =
    (ls <- comprehension (fun r => Rule.get_children r w) (Grammar.rules g) ;;
     Returns (concat ls))
  /\ ((forall r, In r (Grammar.rules g) -> ~ is_substring (Rule.symbol r) w) ->
      Grammar.get_children g w = Returns []).

(** What section 7 asks of the operations of a grammar: each of them
    returns. (The terminal test is a function to [bool] here.) *)
Definition engine_total (g : Grammar.t) : Prop :=
  (forall r w, In r (Grammar.rules g) ->
               exists l, Rule.get_children r w = Returns l)
  /\ (forall w, exists l, Grammar.get_children g w = Returns l)
  /\ (forall d root, (0 <= d)%Z ->
                     exists l, Grammar.possible_strings g d root = Returns l).

(** The root section 4.3 describes: every rule's symbol, once, in
    declaration order. *)
Definition all_symbols_root (g : Grammar.t) : string :=
  fold_right append "" (map Rule.symbol (Grammar.rules g)).

(** ** Rewriting, as a grammar defines it *)

(** One rewriting step: some occurrence of some rule's symbol is replaced
    by one of the rule's patterns. *)
Definition rewrites_to (g : Grammar.t) (w w' : string) : Prop :=
  exists (r : Rule.t) (p before after : string),
    In r (Grammar.rules g) /\ In p (Rule.patterns r)
    /\ w = (before ++ Rule.symbol r ++ after)%string
    /\ w' = (before ++ p ++ after)%string.

(** [derives g root n w]: [w] comes from [root] by [n] rewriting steps. *)
Inductive derives (g : Grammar.t) (root : string) : nat -> string -> Prop :=
| derives_root : derives g root 0 root
| derives_step (n : nat) (w w' : string) :
    derives g root n w -> rewrites_to g w w' -> derives g root (S n) w'.

Definition one_character (s : string) : bool :=
  match s with
  | String _ "" => true
  | _ => false
  end.

(** Every symbol is one ordinary character. *)
Definition one_character_grammar (g : Grammar.t) : bool :=
  forallb (fun r => one_character (Rule.symbol r) && ordinary (Rule.symbol r))
          (Grammar.rules g).

(** The children of a sentence as a list: for each occurrence of the
    literal scan in turn, each pattern in turn. *)
Definition rule_children (r : Rule.t) (w : string) : list string :=
  concat (map (fun i => map (replace_occurrence (Rule.symbol r) w i)
                            (Rule.patterns r))
              (seq 0 (length (occurrences (Rule.symbol r) w)))).

Definition grammar_children (g : Grammar.t) (w : string) : list string :=
  concat (map (fun r => rule_children r w) (Grammar.rules g)).

(** The sentences [n] steps of the search away from the root. *)
Fixpoint level (g : Grammar.t) (root : string) (n : nat) : list string :=
  match n with
  | O => [root]
  | S k => concat (map (grammar_children g) (level g root k))
  end.

(** The strings of [n] binary digits, in lexicographic order. *)
Fixpoint binary (n : nat) : list string :=
  match n with
  | O => [""]
  | S k => flat_map (fun b => [(b ++ "0")%string; (b ++ "1")%string])
                    (binary k)
  end.

Definition is_binary (w : string) : bool :=
  forallb (fun c => Ascii.eqb c "0" || Ascii.eqb c "1")
          (list_ascii_of_string w).

(** The grammar the script builds, and what its one rule makes of a
    sentence [b ++ "A"]. *)
Definition script_grammar : Grammar.t :=
  Grammar.mk [Rule.mk "A" ["0"; "1"; "0A"; "1A"]].

Definition open_sentences (b : string) : list string :=
  [(b ++ "0")%string; (b ++ "1")%string; (b ++ "0A")%string;
   (b ++ "1A")%string].

Definition close_digits (b : string) : list string :=
  [(b ++ "0")%string; (b ++ "1")%string].

(** ** Strings *)

Section StringFacts.

Local Open Scope string_scope.

Lemma append_empty_r (s : string) : s ++ "" = s.
Proof. induction s as [|c s IH]; simpl; [reflexivity | now rewrite IH]. Qed.

Lemma append_assoc (a b c : string) : (a ++ b) ++ c = a ++ b ++ c.
Proof. induction a as [|x a IH]; simpl; [reflexivity | now rewrite IH]. Qed.

Lemma length_append (a b : string) :
  String.length (a ++ b) = String.length a + String.length b.
Proof. induction a as [|x a IH]; simpl; [reflexivity | now rewrite IH]. Qed.

Lemma prefix_append (s a : string) : prefix s (s ++ a) = true.
Proof.
  induction s as [|c s IH]; simpl; [now destruct a|].
  destruct (ascii_dec c c) as [_|n]; [exact IH | now destruct n].
Qed.

Lemma prefix_empty (s : string) : prefix s "" = true -> s = "".
Proof. destruct s; simpl; [reflexivity | discriminate]. Qed.

Lemma take_drop (n : nat) (w : string) : Py.take n w ++ Py.drop n w = w.
Proof.
  revert w; induction n as [|n IH]; intros [|c w]; simpl; try reflexivity.
  now rewrite IH.
Qed.

Lemma take_append (b a : string) : Py.take (String.length b) (b ++ a) = b.
Proof. induction b as [|c b IH]; simpl; [now destruct a | now rewrite IH]. Qed.

Lemma drop_append (b a : string) : Py.drop (String.length b) (b ++ a) = a.
Proof. induction b as [|c b IH]; simpl; [reflexivity | exact IH]. Qed.

Lemma take_append_more (b a : string) (n : nat) :
  Py.take (String.length b + n) (b ++ a) = b ++ Py.take n a.
Proof. induction b as [|c b IH]; simpl; [reflexivity | now rewrite IH]. Qed.

Lemma drop_append_more (b a : string) (n : nat) :
  Py.drop (String.length b + n) (b ++ a) = Py.drop n a.
Proof. induction b as [|c b IH]; simpl; [reflexivity | exact IH]. Qed.

Lemma drop_drop (n m : nat) (w : string) :
  Py.drop n (Py.drop m w) = Py.drop (m + n) w.
Proof.
  revert w; induction m as [|m IH]; intros w; simpl; [reflexivity|].
  destruct w as [|c w]; [now destruct n | apply IH].
Qed.

Lemma length_drop (n : nat) (w : string) :
  String.length (Py.drop n w) = String.length w - n.
Proof.
  revert w; induction n as [|n IH]; intros [|c w]; simpl; auto.
Qed.

(** A prefix is the front part of the string. *)
Lemma prefix_split (s w : string) :
  prefix s w = true -> w = s ++ Py.drop (String.length s) w.
Proof.
  revert w; induction s as [|c s IH]; intros [|d w] H; simpl in *;
    try reflexivity; try discriminate.
  destruct (ascii_dec c d) as [->|]; [|discriminate].
  f_equal. now apply IH.
Qed.

Lemma prefix_length (s w : string) :
  prefix s w = true -> String.length s <= String.length w.
Proof.
  intros H. apply prefix_split in H. apply (f_equal String.length) in H.
  rewrite length_append in H. lia.
Qed.

Lemma prefix_iff (s w : string) :
  prefix s w = true <-> exists after, w = s ++ after.
Proof.
  split.
  - intros H. eexists. now apply prefix_split.
  - intros [after ->]. apply prefix_append.
Qed.

(** [in] on strings is the literal substring test. *)
Lemma contains_iff (x w : string) :
  Py.contains x w = true <-> is_substring x w.
Proof.
  unfold is_substring. induction w as [|c w IH].
  - simpl. rewrite orb_false_r. split.
    + intros H. apply prefix_empty in H. subst. now exists "", "".
    + intros [[|b before] [after H]]; [|discriminate].
      simpl in H. destruct x; [reflexivity | discriminate].
  - cbn [Py.contains]. rewrite orb_true_iff, IH, prefix_iff. split.
    + intros [[after H] | [before [after H]]].
      * now exists "", after.
      * exists (String c before), after. simpl. now rewrite H.
    + intros [[|b before] [after H]].
      * left. now exists after.
      * right. exists before, after. simpl in H. now injection H.
Qed.

Lemma contains_false_iff (x w : string) :
  Py.contains x w = false <-> ~ is_substring x w.
Proof.
  rewrite <- contains_iff. now destruct (Py.contains x w).
Qed.

(** [cut] splits around an occurrence, and fails only when there is none. *)
Lemma cut_Some (sep w before after : string) :
  Py.cut sep w = Some (before, after) -> w = before ++ sep ++ after.
Proof.
  revert before after; induction w as [|c w IH]; intros before after.
  - cbn [Py.cut]. destruct (prefix sep "") eqn:E; [|discriminate].
    intros [= <- <-]. simpl. now apply prefix_split.
  - cbn [Py.cut]. destruct (prefix sep (String c w)) eqn:E.
    + intros [= <- <-]. simpl. now apply prefix_split.
    + destruct (Py.cut sep w) as [[b a]|]; [|discriminate].
      intros [= <- <-]. simpl. f_equal. now apply IH.
Qed.

Lemma cut_None (sep w : string) :
  Py.cut sep w = None <-> Py.contains sep w = false.
Proof.
  induction w as [|c w IH]; cbn [Py.cut Py.contains].
  - destruct (prefix sep ""); simpl; split; congruence.
  - destruct (prefix sep (String c w)); simpl; [split; congruence|].
    rewrite <- IH. destruct (Py.cut sep w) as [[b a]|]; split; congruence.
Qed.

(** The occurrence [cut] finds is the leftmost: none starts before it. *)
Lemma cut_leftmost (sep w before after : string) (j : nat) :
  Py.cut sep w = Some (before, after) ->
  j < String.length before ->
  prefix sep (Py.drop j w) = false.
Proof.
  revert before j; induction w as [|c w IH]; intros before j;
    cbn [Py.cut].
  - destruct (prefix sep ""); [|discriminate].
    intros [= <- _]. simpl. lia.
  - destruct (prefix sep (String c w)) eqn:E.
    + intros [= <- _]. simpl. lia.
    + destruct (Py.cut sep w) as [[b a]|] eqn:Hcut; [|discriminate].
      intros [= <- <-] Hj. destruct j as [|j]; [exact E|].
      simpl in Hj |- *. apply (IH b); [reflexivity | lia].
Qed.

End StringFacts.

(** ** The scan of [re.findall] against the literal scan *)

Section Scanning.

Variable s : string.
Hypothesis s_not_empty : s <> "".

Lemma length_symbol_positive : 0 < String.length s.
Proof. destruct s; [contradiction | simpl; lia]. Qed.

Lemma prefix_nonempty_empty : prefix s "" = false.
Proof. destruct s; [contradiction | reflexivity]. Qed.

Lemma occurrences_from_shift (skip pos : nat) (w : string) :
  occurrences_from s skip pos w =
  map (fun n => pos + n) (occurrences_from s skip 0 w).
Proof.
  revert skip pos; induction w as [|c w IH]; intros skip pos; [reflexivity|].
  cbn [occurrences_from].
  assert (E : forall k, occurrences_from s k (S pos) w =
                        map (fun n => pos + n) (occurrences_from s k 1 w)).
  { intros k. rewrite (IH k (S pos)), (IH k 1), map_map.
    apply map_ext. intros n. lia. }
  destruct skip as [|k]; [|apply E].
  destruct (prefix s (String c w)); [|apply E].
  cbn [map]. rewrite E. f_equal. lia.
Qed.

Lemma occurrences_from_skip (skip : nat) (w : string) :
  skip <= String.length w ->
  occurrences_from s skip 0 w =
  map (fun n => skip + n) (occurrences s (Py.drop skip w)).
Proof.
  unfold occurrences.
  revert w; induction skip as [|k IH]; intros w H.
  - simpl. rewrite map_id. reflexivity.
  - destruct w as [|c w]; [simpl in H; lia|].
    cbn [occurrences_from Py.drop].
    rewrite occurrences_from_shift, IH by (simpl in H; lia).
    rewrite map_map. apply map_ext. intros n. lia.
Qed.

(** The literal scan, one cut after the other. *)
Lemma occurrences_cut (w : string) :
  occurrences s w =
  match Py.cut s w with
  | None => []
  | Some (before, after) =>
      String.length before ::
      map (fun n => String.length before + String.length s + n)
          (occurrences s after)
  end.
Proof.
  induction w as [|c w IH].
  - cbn [Py.cut]. rewrite prefix_nonempty_empty. reflexivity.
  - unfold occurrences at 1. cbn [occurrences_from Py.cut].
    destruct (prefix s (String c w)) eqn:E.
    + pose proof length_symbol_positive as Hpos.
      apply prefix_length in E. simpl in E.
      destruct (String.length s) as [|m] eqn:Hm; [lia|].
      cbn [String.length Py.drop Nat.sub]. rewrite Nat.sub_0_r.
      f_equal. rewrite occurrences_from_shift, occurrences_from_skip by lia.
      rewrite map_map. apply map_ext. intros n. lia.
    + rewrite occurrences_from_shift. fold (occurrences s w). rewrite IH.
      destruct (Py.cut s w) as [[b a]|]; [|reflexivity].
      cbn [map String.length]. f_equal. rewrite map_map.
      apply map_ext. intros n. lia.
Qed.

Lemma match_here_literal (w : string) :
  Py.match_here (literals s) w = prefix s w.
Proof.
  unfold literals. clear s_not_empty. revert w.
  induction s as [|c s' IH]; intros [|d w]; simpl; try reflexivity.
  rewrite IH. destruct (ascii_dec c d) as [->|n].
  - now rewrite Ascii.eqb_refl.
  - destruct (Ascii.eqb_spec d c) as [->|]; [now destruct n | reflexivity].
Qed.

Lemma length_literals : length (literals s) = String.length s.
Proof.
  unfold literals. rewrite length_map. clear s_not_empty.
  induction s as [|c s' IH]; simpl; [reflexivity | now rewrite IH].
Qed.

(** [re.findall] finds as many matches as the literal scan finds
    occurrences. *)
Lemma scan_counts_occurrences (skip pos : nat) (w : string) :
  length (Py.scan (literals s) skip w) =
  length (occurrences_from s skip pos w).
Proof.
  revert skip pos; induction w as [|c w IH]; intros skip pos.
  - simpl. destruct (literals s) eqn:E; [|reflexivity].
    pose proof length_literals as H. rewrite E in H.
    pose proof length_symbol_positive. simpl in H. lia.
  - cbn [Py.scan occurrences_from]. destruct skip as [|k]; [|apply IH].
    rewrite match_here_literal, length_literals.
    destruct (prefix s (String c w)); [|apply IH].
    simpl. f_equal. apply IH.
Qed.

(** *** Replacing the n-th occurrence by split and join *)

Lemma split_upto_not_nil (w : string) (n : nat) : Py.split_upto s w n <> [].
Proof.
  destruct n as [|n]; simpl; [discriminate|].
  destruct (Py.cut s w) as [[b a]|]; discriminate.
Qed.

Lemma split_upto_cut (w before after : string) (n : nat) :
  Py.cut s w = Some (before, after) ->
  Py.split_upto s w (S n) = before :: Py.split_upto s after n.
Proof. intros H. simpl. now rewrite H. Qed.

Lemma removelast_cons (x : string) (l : list string) :
  l <> [] -> removelast (x :: l) = x :: removelast l.
Proof. destruct l; [contradiction | reflexivity]. Qed.

Lemma last_cons (x d : string) (l : list string) :
  l <> [] -> last (x :: l) d = last l d.
Proof. destruct l; [contradiction | reflexivity]. Qed.

Lemma join_cons (sep x : string) (l : list string) :
  l <> [] -> Py.join sep (x :: l) = (x ++ sep ++ Py.join sep l)%string.
Proof. destruct l; [contradiction | reflexivity]. Qed.

Lemma split_join_replaces (p w : string) (i : nat) :
  i < length (occurrences s w) ->
  Py.join p [Py.join s (removelast (Py.split_upto s w (S i)));
             last (Py.split_upto s w (S i)) ""] =
  replace_occurrence s w i p.
Proof.
  unfold replace_occurrence, replace_at.
  revert w; induction i as [|i IH]; intros w Hi;
    rewrite occurrences_cut in Hi |- *;
    destruct (Py.cut s w) as [[b a]|] eqn:Hcut; try (simpl in Hi; lia);
    rewrite (split_upto_cut _ _ _ _ Hcut);
    apply cut_Some in Hcut; subst w.
  - cbn [Py.split_upto removelast last nth Py.join String.concat].
    rewrite take_append, <- (append_assoc b s a), <- length_append.
    now rewrite drop_append.
  - cbn [length] in Hi. rewrite length_map in Hi.
    assert (Hi' : i < length (occurrences s a)) by lia.
    pose proof (split_upto_not_nil a (S i)) as Hne.
    rewrite removelast_cons, last_cons by exact Hne.
    assert (Hrl : removelast (Py.split_upto s a (S i)) <> []).
    { cbn [Py.split_upto]. rewrite occurrences_cut in Hi'.
      destruct (Py.cut s a) as [[b' a']|]; [|simpl in Hi'; lia].
      rewrite removelast_cons by apply split_upto_not_nil. discriminate. }
    rewrite (join_cons s b _ Hrl).
    specialize (IH a Hi'). cbn [Py.join String.concat] in IH |- *.
    cbn [nth].
    rewrite (nth_indep _ 0 (String.length b + String.length s + 0))
      by (rewrite length_map; lia).
    rewrite (map_nth (fun n => String.length b + String.length s + n)).
    rewrite <- (append_assoc b s a), <- length_append.
    rewrite take_append_more, <- Nat.add_assoc, drop_append_more.
    rewrite !append_assoc. now rewrite IH.
Qed.

Lemma replace_nth_substring_returns (p w : string) (n : nat) :
  Rule.replace_nth_substring w s p n =
  Returns (Py.join p [Py.join s (removelast (Py.split_upto s w (S n)));
                      last (Py.split_upto s w (S n)) ""]).
Proof.
  unfold Rule.replace_nth_substring, Py.split.
  destruct (String.eqb_spec s "") as [E|_]; [contradiction|].
  destruct (Z.ltb_spec (Z.of_nat n + 1) 0) as [H|_]; [lia|].
  replace (Z.to_nat (Z.of_nat n + 1)) with (S n) by lia.
  cbn [bind]. unfold Rule.unpack_star_last.
  pose proof (split_upto_not_nil w (S n)) as Hne.
  destruct (Py.split_upto s w (S n)); [contradiction | reflexivity].
Qed.

End Scanning.

(** ** Loops *)

Section Loops.

Context {A X : Type}.

Lemma for_each_ext (body body' : A -> X -> outcome A) (xs : list X) (acc : A) :
  (forall a x, body a x = body' a x) ->
  for_each xs acc body = for_each xs acc body'.
Proof.
  intros E. revert acc; induction xs as [|x xs IH]; intros acc; simpl;
    [reflexivity|].
  rewrite E. destruct (body' acc x); simpl; auto.
Qed.

Lemma for_each_app (body : A -> X -> outcome A) (xs ys : list X) (acc : A) :
  for_each (xs ++ ys) acc body =
  (acc' <- for_each xs acc body ;; for_each ys acc' body).
Proof.
  revert acc; induction xs as [|x xs IH]; intros acc; simpl; [reflexivity|].
  destruct (body acc x); simpl; auto.
Qed.

Lemma comprehension_returns (f : X -> outcome A) (g : X -> A) (xs : list X) :
  (forall x, In x xs -> f x = Returns (g x)) ->
  comprehension f xs = Returns (map g xs).
Proof.
  induction xs as [|x xs IH]; intros H; simpl; [reflexivity|].
  rewrite (H x) by (left; reflexivity).
  rewrite IH by (intros y Hy; apply H; right; exact Hy). reflexivity.
Qed.

(** A loop that appends one value per round is a comprehension. *)
Lemma for_each_append (f : X -> outcome A) (xs : list X) (acc : list A) :
  for_each xs acc (fun acc x => y <- f x ;; Returns (acc ++ [y])) =
  (ys <- comprehension f xs ;; Returns (acc ++ ys)).
Proof.
  revert acc; induction xs as [|x xs IH]; intros acc; simpl.
  - now rewrite app_nil_r.
  - destruct (f x) as [y| |]; simpl; try reflexivity.
    rewrite IH. destruct (comprehension f xs); simpl; try reflexivity.
    now rewrite <- app_assoc.
Qed.

(** A loop that extends by a list per round concatenates them. *)
Lemma for_each_extend (f : X -> outcome (list A)) (xs : list X)
      (acc : list A) :
  for_each xs acc (fun acc x => more <- f x ;; Returns (acc ++ more)) =
  (ls <- comprehension f xs ;; Returns (acc ++ concat ls)).
Proof.
  revert acc; induction xs as [|x xs IH]; intros acc; simpl.
  - now rewrite app_nil_r.
  - destruct (f x) as [y| |]; simpl; try reflexivity.
    rewrite IH. destruct (comprehension f xs); simpl; try reflexivity.
    now rewrite app_assoc.
Qed.

End Loops.

(** Blocks of equal length, one per index, laid end to end. *)
Lemma length_blocks {X : Type} (G : nat -> X -> string) (P : list X)
      (l : list nat) :
  length (concat (map (fun i => map (G i) P) l)) = length l * length P.
Proof.
  induction l as [|i l IH]; simpl; [reflexivity|].
  now rewrite length_app, length_map, IH.
Qed.

Lemma nth_blocks (G : nat -> string -> string) (P : list string)
      (a k i j : nat) :
  i < k -> j < length P ->
  nth (i * length P + j) (concat (map (fun i => map (G i) P) (seq a k))) "" =
  G (a + i) (nth j P "").
Proof.
  revert a i; induction k as [|k IH]; intros a i Hi Hj; [lia|].
  cbn [seq map concat]. destruct i as [|i].
  - rewrite app_nth1 by (rewrite length_map; exact Hj).
    rewrite (nth_indep _ "" (G a "")) by (rewrite length_map; exact Hj).
    rewrite map_nth. f_equal. lia.
  - rewrite app_nth2 by (rewrite length_map; simpl; lia).
    rewrite length_map.
    replace (S i * length P + j - length P) with (i * length P + j)
      by (simpl; lia).
    rewrite IH by lia. f_equal. lia.
Qed.

(** ** One rule, one step *)

Lemma sre_parse_plain (s : string) :
  plain s = true ->
  Py.sre_parse s = Returns (literals s).
Proof.
  unfold plain. induction s as [|c s IH]; simpl; [reflexivity|].
  rewrite andb_true_iff, negb_true_iff. intros [Hc Hs].
  destruct (Ascii.eqb_spec c "."%char) as [->|_]; [discriminate Hc|].
  rewrite Hc, IH by exact Hs. reflexivity.
Qed.

(** The two loops of [Rule.get_children], whatever the symbol. *)
Lemma get_children_loops (r : Rule.t) (w : string) :
  Rule.get_children r w =
  (found <- Py.findall (Rule.symbol r) w ;;
   ls <- comprehension
           (fun i =>
              comprehension
                (fun p => Rule.replace_nth_substring w (Rule.symbol r) p i)
                (Rule.patterns r))
           (seq 0 (length found)) ;;
   Returns (concat ls)).
Proof.
  unfold Rule.get_children.
  destruct (Py.findall (Rule.symbol r) w) as [found| |]; simpl;
    try reflexivity.
  etransitivity;
    [| exact (for_each_extend
                (fun i =>
                   comprehension
                     (fun p => Rule.replace_nth_substring w (Rule.symbol r) p i)
                     (Rule.patterns r))
                (seq 0 (length found)) [])].
  apply for_each_ext. intros children i. apply for_each_append.
Qed.

(** For a symbol that is not empty and that [re] reads as itself, the rule
    replaces each occurrence of the literal scan in turn, by each pattern
    in turn. *)
Lemma get_children_plain (r : Rule.t) (w : string) :
  Rule.symbol r <> "" -> plain (Rule.symbol r) = true ->
  Rule.get_children r w =
  Returns (concat (map (fun i => map (replace_occurrence (Rule.symbol r) w i)
                                     (Rule.patterns r))
                       (seq 0 (length (occurrences (Rule.symbol r) w))))).
Proof.
  intros Hne Hplain. rewrite get_children_loops.
  unfold Py.findall. rewrite (sre_parse_plain _ Hplain). cbn [bind].
  rewrite (scan_counts_occurrences _ Hne 0 0). fold (occurrences (Rule.symbol r) w).
  rewrite (comprehension_returns _
             (fun i => map (replace_occurrence (Rule.symbol r) w i)
                           (Rule.patterns r))); [reflexivity|].
  intros i Hi. apply in_seq in Hi. apply comprehension_returns.
  intros p _. rewrite (replace_nth_substring_returns _ Hne). f_equal.
  apply split_join_replaces; [exact Hne | lia].
Qed.

Lemma ordinary_inv (s : string) :
  ordinary s = true -> s <> "" /\ plain s = true.
Proof.
  unfold ordinary. rewrite andb_true_iff, negb_true_iff, String.eqb_neq.
  tauto.
Qed.

(** The offsets of the literal scan are offsets of the symbol, and no two
    of them overlap. *)
Lemma occurrences_from_sound (s : string) (skip pos : nat) (w : string) :
  s <> "" ->
  Forall (fun p => pos + skip <= p /\ prefix s (Py.drop (p - pos) w) = true)
         (occurrences_from s skip pos w)
  /\ apart (String.length s) (occurrences_from s skip pos w).
Proof.
  intros Hne. pose proof (length_symbol_positive s Hne) as Hlen.
  revert skip pos; induction w as [|c w IH]; intros skip pos.
  - split; constructor.
  - cbn [occurrences_from].
    assert (Step : forall k,
               Forall (fun p => pos + S k <= p /\
                                prefix s (Py.drop (p - pos) (String c w)) = true)
                      (occurrences_from s k (S pos) w)).
    { intros k. destruct (IH k (S pos)) as [H _].
      eapply Forall_impl; [|exact H]. intros p [Hp Hpre]. split; [lia|].
      replace (p - pos) with (S (p - S pos)) by lia. exact Hpre. }
    destruct skip as [|k].
    + destruct (prefix s (String c w)) eqn:E.
      * split.
        -- constructor.
           ++ rewrite Nat.sub_diag. split; [lia | exact E].
           ++ eapply Forall_impl; [|exact (Step (String.length s - 1))].
              intros p [Hp Hpre]. split; [lia | exact Hpre].
        -- split; [|apply IH].
           eapply Forall_impl; [|exact (Step (String.length s - 1))].
           intros p [Hp _]. lia.
      * split; [|apply IH].
        destruct (IH 0 (S pos)) as [H _].
        eapply Forall_impl; [|exact H]. intros p [Hp Hpre]. split; [lia|].
        replace (p - pos) with (S (p - S pos)) by lia. exact Hpre.
    + split; [apply Step | apply IH].
Qed.

Lemma occurrences_sound (s w : string) :
  s <> "" ->
  Forall (fun p => prefix s (Py.drop p w) = true) (occurrences s w)
  /\ apart (String.length s) (occurrences s w).
Proof.
  intros Hne. destruct (occurrences_from_sound s 0 0 w Hne) as [H Ha].
  split; [|exact Ha].
  eapply Forall_impl; [|exact H]. intros p [_ Hpre].
  now rewrite Nat.sub_0_r in Hpre.
Qed.

(** No occurrence is found exactly when the symbol is not a substring. *)
Lemma occurrences_nil_iff (s w : string) :
  s <> "" -> occurrences s w = [] <-> ~ is_substring s w.
Proof.
  intros Hne. rewrite (occurrences_cut s Hne), <- contains_false_iff, <- cut_None.
  destruct (Py.cut s w) as [[b a]|]; split; congruence.
Qed.

(** C1, as amended: for every rule whose symbol is not empty and has no
    character special to [re], and every sentence [w], [Rule.get_children]
    returns exactly [k * |P|] sentences, [k] the number of occurrences of
    the symbol found by the literal scan from the left, and the entry for
    occurrence [i] and pattern [p] is [w] with only the [i]-th occurrence
    replaced by [p]. *)
Theorem get_children_expands_one_step (r : Rule.t) (w : string) :
  ordinary (Rule.symbol r) = true -> expands_one_step r w.
Proof.
  intros H. apply ordinary_inv in H as [Hne Hplain].
  unfold expands_one_step.
  eexists. split; [apply get_children_plain; assumption|].
  cbv zeta. split.
  - rewrite length_blocks, length_seq. reflexivity.
  - intros i j Hi Hj.
    exact (nth_blocks (replace_occurrence (Rule.symbol r) w)
                      (Rule.patterns r) 0 _ i j Hi Hj).
Qed.

Lemma get_children_expands_one_step_witness :
  ordinary (Rule.symbol (Rule.mk "AB" ["x"; "yy"])) = true
  /\ expands_one_step (Rule.mk "AB" ["x"; "yy"]) "ABcABAB".
Proof.
  split; [reflexivity|].
  apply (get_children_expands_one_step (Rule.mk "AB" ["x"; "yy"]) "ABcABAB").
  reflexivity.
Defined.

(** C1 as stated fails for the rule with the empty symbol: the call raises
    ValueError (the empty separator of [split]) and returns no list. *)
Lemma empty_symbol_does_not_expand :
  ~ expands_one_step (Rule.mk "" ["x"]) "ab".
Proof.
  intros [children [H _]]. vm_compute in H. discriminate H.
Qed.

(** C8, as amended: for every rule whose symbol is not empty and has no
    character special to [re], [Rule.get_children] returns the empty list
    whenever the symbol does not occur in the sentence, and so when the
    sentence is the empty string. *)
Theorem get_children_without_symbol (r : Rule.t) :
  ordinary (Rule.symbol r) = true -> nothing_without_the_symbol r.
Proof.
  intros H. apply ordinary_inv in H as [Hne Hplain].
  assert (G : forall w, ~ is_substring (Rule.symbol r) w ->
                        Rule.get_children r w = Returns []).
  { intros w Hw. rewrite get_children_plain by assumption.
    apply (occurrences_nil_iff _ _ Hne) in Hw. now rewrite Hw. }
  split; [exact G|].
  apply G. rewrite <- contains_false_iff. cbn [Py.contains].
  now rewrite (prefix_nonempty_empty _ Hne).
Qed.

Lemma get_children_without_symbol_witness :
  ordinary (Rule.symbol (Rule.mk "A" ["0"; "1"; "0A"; "1A"])) = true
  /\ nothing_without_the_symbol (Rule.mk "A" ["0"; "1"; "0A"; "1A"]).
Proof.
  split; [reflexivity|].
  apply (get_children_without_symbol (Rule.mk "A" ["0"; "1"; "0A"; "1A"])).
  reflexivity.
Defined.

(** C8 as stated fails for the rule with the empty symbol on the empty
    sentence: the call raises ValueError. *)
Lemma empty_symbol_on_empty_sentence :
  ~ nothing_without_the_symbol (Rule.mk "" ["x"]).
Proof.
  intros [_ H]. vm_compute in H. discriminate H.
Qed.

(** ** The rules of a grammar together *)

Lemma fold_left_append {X Y : Type} (f : X -> Y) (l : list X) (acc : list Y) :
  fold_left (fun a x => a ++ [f x]) l acc = acc ++ map f l.
Proof.
  revert acc; induction l as [|x l IH]; intros acc; simpl.
  - now rewrite app_nil_r.
  - rewrite IH, <- app_assoc. reflexivity.
Qed.

Lemma fold_left_extend {Y : Type} (ls : list (list Y)) (acc : list Y) :
  fold_left (fun a x => a ++ x) ls acc = acc ++ concat ls.
Proof.
  revert acc; induction ls as [|l ls IH]; intros acc; simpl.
  - now rewrite app_nil_r.
  - rewrite IH, <- app_assoc. reflexivity.
Qed.

Lemma get_symbols_map (g : Grammar.t) :
  Grammar.get_symbols g = map Rule.symbol (Grammar.rules g).
Proof. unfold Grammar.get_symbols. now rewrite fold_left_append. Qed.

Lemma join_empty_separator (l : list string) :
  Py.join "" l = fold_right append "" l.
Proof.
  unfold Py.join. induction l as [|x [|y l] IH]; [reflexivity| |].
  - simpl. now rewrite append_empty_r.
  - cbn [String.concat fold_right] in IH |- *. now rewrite IH.
Qed.

Lemma default_root_all_symbols (g : Grammar.t) :
  Grammar.default_root g = all_symbols_root g.
Proof.
  unfold Grammar.default_root, all_symbols_root.
  now rewrite join_empty_separator, get_symbols_map.
Qed.

(** The loop of [Grammar.get_children] concatenates what the rules give,
    in declaration order. *)
Lemma grammar_get_children_concat (g : Grammar.t) (w : string) :
  Grammar.get_children g w =
  (ls <- comprehension (fun r => Rule.get_children r w) (Grammar.rules g) ;;
   Returns (concat ls)).
Proof.
  exact (for_each_extend (fun r => Rule.get_children r w) (Grammar.rules g) []).
Qed.

Lemma ordinary_grammar_get_children (g : Grammar.t) (w : string) :
  ordinary_grammar g = true ->
  exists l, Grammar.get_children g w = Returns l.
Proof.
  unfold ordinary_grammar. rewrite forallb_forall. intros H.
  rewrite grammar_get_children_concat.
  rewrite (comprehension_returns _
             (fun r => concat
                (map (fun i => map (replace_occurrence (Rule.symbol r) w i)
                                   (Rule.patterns r))
                     (seq 0 (length (occurrences (Rule.symbol r) w)))))).
  - eexists. reflexivity.
  - intros r Hr. apply H, ordinary_inv in Hr as [Hne Hplain].
    now apply get_children_plain.
Qed.

(** C4: [Grammar.get_children] on the grammar of the single rule
    [Rule(".", ["x"])] and the sentence ["ab"]. The symbol is not a
    substring of the sentence, and the call returns two children, where the
    claim has the empty list: [re.findall] reads the symbol as a pattern and
    counts two matches. *)
Theorem get_children_of_dot_symbol :
  Py.contains "." "ab" = false
  /\ Grammar.get_children (Grammar.mk [Rule.mk "." ["x"]]) "ab" =
     Returns ["xab"; "xab"]
  /\ ~ children_are_concatenated (Grammar.mk [Rule.mk "." ["x"]]) "ab".
Proof.
  split; [reflexivity|]. split; [reflexivity|].
  intros [_ H].
  assert (E : Grammar.get_children (Grammar.mk [Rule.mk "." ["x"]]) "ab" =
              Returns []).
  { apply H. intros r [<-|[]]. apply contains_false_iff. reflexivity. }
  vm_compute in E. discriminate E.
Qed.

(** ** The terminal test *)

Lemma truthy_filter {X : Type} (f : X -> bool) (l : list X) :
  truthy (filter f l) = true <-> exists x, In x l /\ f x = true.
Proof.
  induction l as [|y l IH]; simpl.
  - split; [discriminate | intros [x [[] _]]].
  - destruct (f y) eqn:E; simpl.
    + split; [|reflexivity]. intros _. exists y. auto.
    + rewrite IH. split.
      * intros [x [Hx Hf]]. exists x. auto.
      * intros [x [[->|Hx] Hf]]; [congruence | exists x; auto].
Qed.

Lemma is_terminal_iff (symbols : list string) (w : string) :
  Grammar.is_terminal symbols w = true <->
  exists x, In x symbols /\ ~ is_substring x w.
Proof.
  unfold Grammar.is_terminal. rewrite truthy_filter.
  split; intros [x [Hx H]]; exists x; split; try exact Hx.
  - apply contains_false_iff. now apply negb_true_iff.
  - apply negb_true_iff. now apply contains_false_iff.
Qed.

(** C2: the terminal test of [possible_strings] holds of [w] exactly when
    some declared symbol is not a substring of [w]; so a sentence that has
    some symbol of the grammar but lacks another passes the test, and every
    sentence [possible_strings] returns has passed it. *)
Theorem terminal_test_is_existential :
  (forall (symbols : list string) (w : string),
      Grammar.is_terminal symbols w = true <->
      exists x, In x symbols /\ ~ is_substring x w)
  /\ (forall (g : Grammar.t) (w : string) (r1 r2 : Rule.t),
         In r1 (Grammar.rules g) -> In r2 (Grammar.rules g) ->
         is_substring (Rule.symbol r1) w ->
         ~ is_substring (Rule.symbol r2) w ->
         Grammar.is_terminal (Grammar.get_symbols g) w = true)
  /\ (forall (g : Grammar.t) (d : Z) (root : option string) (l : list string),
         Grammar.possible_strings g d root = Returns l ->
         forall a, In a l ->
                   Grammar.is_terminal (Grammar.get_symbols g) a = true).
Proof.
  split; [exact is_terminal_iff|]. split.
  - intros g w r1 r2 _ H2 _ Hno. apply is_terminal_iff.
    exists (Rule.symbol r2). split; [|exact Hno].
    rewrite get_symbols_map. now apply in_map.
  - intros g d root l H a Ha. unfold Grammar.possible_strings in H.
    destruct (for_each _ _ _) as [levels| |]; simpl in H; try discriminate.
    injection H as <-. now apply filter_In in Ha.
Qed.

Lemma terminal_test_is_existential_witness :
  Grammar.is_terminal
    (Grammar.get_symbols (Grammar.mk [Rule.mk "A" ["aB"]; Rule.mk "B" ["b"]]))
    "aB" = true.
Proof.
  apply (proj1 (proj2 terminal_test_is_existential)
               (Grammar.mk [Rule.mk "A" ["aB"]; Rule.mk "B" ["b"]]) "aB"
               (Rule.mk "B" ["b"]) (Rule.mk "A" ["aB"])).
  - simpl. right. left. reflexivity.
  - simpl. left. reflexivity.
  - apply contains_iff. reflexivity.
  - apply contains_false_iff. reflexivity.
Defined.

(** ** The search *)

(** [possible_strings]: the levels of the loop, flattened and filtered. *)
Lemma possible_strings_levels (g : Grammar.t) (d : Z) (root : option string) :
  Grammar.possible_strings g d root =
  (levels <- for_each (range d)
                      [[match root with
                        | None => all_symbols_root g
                        | Some root => root
                        end]]
                      (fun levels _ => Grammar.next_level g levels) ;;
   Returns (filter (Grammar.is_terminal (map Rule.symbol (Grammar.rules g)))
                   (concat levels))).
Proof.
  unfold Grammar.possible_strings.
  rewrite default_root_all_symbols, get_symbols_map.
  destruct (for_each _ _ _) as [levels| |]; simpl; try reflexivity.
  now rewrite fold_left_extend.
Qed.

(** C5: the default root is the symbols of the rules concatenated in
    declaration order, each rule's symbol once, and a search without a root
    argument is the search from that sentence; and at depth 0, for every
    root, the result is the root alone, kept exactly when some symbol of
    the rules is not a substring of it (the terminal test on the symbols
    of the rules, in declaration order). *)
Theorem default_root_and_depth_zero :
  (forall g : Grammar.t,
      Grammar.default_root g =
      fold_right append "" (map Rule.symbol (Grammar.rules g)))
  /\ (forall (g : Grammar.t) (d : Z),
         Grammar.possible_strings g d None =
         Grammar.possible_strings g d
           (Some (fold_right append "" (map Rule.symbol (Grammar.rules g)))))
  /\ (forall g : Grammar.t,
         Grammar.get_symbols g = map Rule.symbol (Grammar.rules g))
  /\ (forall (g : Grammar.t) (root : string),
         Grammar.possible_strings g 0 (Some root) =
         Returns (if Grammar.is_terminal (map Rule.symbol (Grammar.rules g))
                                         root
                  then [root] else [])
         /\ (Grammar.possible_strings g 0 (Some root) = Returns [root] <->
             exists x, In x (map Rule.symbol (Grammar.rules g))
                       /\ ~ is_substring x root)
         /\ (Grammar.possible_strings g 0 (Some root) = Returns [] <->
             forall x, In x (map Rule.symbol (Grammar.rules g)) ->
                       is_substring x root)).
Proof.
  split; [exact default_root_all_symbols|].
  split; [intros g d; now rewrite !possible_strings_levels|].
  split; [exact get_symbols_map|].
  intros g root.
  assert (E : Grammar.possible_strings g 0 (Some root) =
              Returns (if Grammar.is_terminal
                            (map Rule.symbol (Grammar.rules g)) root
                       then [root] else [])).
  { rewrite possible_strings_levels.
    cbn [range Z.to_nat seq for_each bind concat app filter].
    reflexivity. }
  split; [exact E|]. rewrite E.
  pose proof (is_terminal_iff (map Rule.symbol (Grammar.rules g)) root)
    as Hiff.
  destruct (Grammar.is_terminal (map Rule.symbol (Grammar.rules g)) root).
  - split; split.
    + intros _. now apply Hiff.
    + reflexivity.
    + discriminate.
    + intros Hall. destruct (proj1 Hiff eq_refl) as [x [Hx Hno]].
      destruct Hno. now apply Hall.
  - split; split.
    + discriminate.
    + intros H. apply Hiff in H. discriminate H.
    + intros _ x Hx. apply contains_iff.
      destruct (Py.contains x root) eqn:Ec; [reflexivity|].
      assert (true = false); [|discriminate].
      symmetry. apply Hiff. exists x. split; [exact Hx|].
      now apply contains_false_iff.
    + reflexivity.
Qed.

Lemma range_succ (d : Z) :
  (1 <= d)%Z -> range d = range (d - 1) ++ [Z.to_nat (d - 1)].
Proof.
  intros H. unfold range.
  replace (Z.to_nat d) with (S (Z.to_nat (d - 1))) by lia.
  now rewrite seq_S.
Qed.

(** C6: from depth 1 on, whatever [possible_strings] returns at one depth
    less is returned again, at the front of what it returns. *)
Theorem deeper_search_keeps_results
        (g : Grammar.t) (root : option string) (d : Z) (l : list string) :
  (1 <= d)%Z ->
  Grammar.possible_strings g d root = Returns l ->
  exists l' more : list string,
    Grammar.possible_strings g (d - 1) root = Returns l'
    /\ l = l' ++ more
    /\ incl l' l.
Proof.
  intros Hd. rewrite !possible_strings_levels, (range_succ d Hd), for_each_app.
  destruct (for_each (range (d - 1)) _ _) as [levels| |]; simpl;
    try discriminate.
  unfold Grammar.next_level at 1.
  destruct (for_each (last levels []) _ _) as [level_strings| |]; simpl;
    try discriminate.
  intros [= <-].
  exists (filter (Grammar.is_terminal (map Rule.symbol (Grammar.rules g)))
                 (concat levels)),
         (filter (Grammar.is_terminal (map Rule.symbol (Grammar.rules g)))
                 level_strings).
  split; [reflexivity|].
  rewrite concat_app, filter_app. simpl. rewrite app_nil_r.
  split; [reflexivity | apply incl_appl, incl_refl].
Qed.

Lemma deeper_search_keeps_results_witness :
  exists l' more : list string,
    Grammar.possible_strings
      (Grammar.mk [Rule.mk "A" ["0"; "1"; "0A"; "1A"]]) (2 - 1) None =
    Returns l'
    /\ ["0"; "1"; "00"; "01"; "10"; "11"] = l' ++ more
    /\ incl l' ["0"; "1"; "00"; "01"; "10"; "11"].
Proof.
  apply (deeper_search_keeps_results
           (Grammar.mk [Rule.mk "A" ["0"; "1"; "0A"; "1A"]]) None 2).
  - lia.
  - vm_compute. reflexivity.
Defined.

(** ** What can raise *)

Section Totality.

Context {A X : Type}.

Lemma comprehension_total (f : X -> outcome A) (xs : list X) :
  (forall x, In x xs -> exists y, f x = Returns y) ->
  exists ys, comprehension f xs = Returns ys.
Proof.
  induction xs as [|x xs IH]; intros H; simpl; [eexists; reflexivity|].
  destruct (H x) as [y ->]; [left; reflexivity|].
  destruct IH as [ys ->]; [intros z Hz; apply H; right; exact Hz|].
  eexists. reflexivity.
Qed.

Lemma for_each_total (body : A -> X -> outcome A) (xs : list X) (acc : A) :
  (forall a x, exists a', body a x = Returns a') ->
  exists a', for_each xs acc body = Returns a'.
Proof.
  intros H. revert acc; induction xs as [|x xs IH]; intros acc; simpl;
    [eexists; reflexivity|].
  destruct (H acc x) as [a' ->]. apply IH.
Qed.

Lemma comprehension_raises (f : X -> outcome A) (xs : list X) (e : exn) :
  comprehension f xs = Raises e -> exists x, In x xs /\ f x = Raises e.
Proof.
  induction xs as [|x xs IH]; simpl; [discriminate|].
  destruct (f x) as [y| |] eqn:E; simpl; try discriminate.
  - destruct (comprehension f xs) as [ys| |]; simpl; try discriminate.
    intros [= <-]. destruct IH as [z [Hz Hf]]; [reflexivity|].
    exists z. auto.
  - intros [= <-]. exists x. auto.
Qed.

End Totality.

(** Reading a rule from text raises nothing but ValueError. *)
Lemma rule_of_string_raises (s : string) (e : exn) :
  Rule.init None None (Some s) = Raises e -> e = ValueError.
Proof.
  unfold Rule.init, Rule.string_to_rule_info, Py.split.
  change (ARROW_SEPERATOR =? "")%string with false.
  change (RULE_DELIMETER =? "")%string with false.
  cbn [bind].
  destruct (Py.split_upto ARROW_SEPERATOR s _) as [|a [|b [|c parts]]];
    cbn [bind]; congruence.
Qed.

Lemma next_level_total (g : Grammar.t) (levels : list (list string)) :
  ordinary_grammar g = true ->
  exists levels', Grammar.next_level g levels = Returns levels'.
Proof.
  intros Hg. unfold Grammar.next_level. rewrite for_each_extend.
  destruct (comprehension_total (Grammar.get_children g) (last levels []))
    as [ls ->].
  - intros w _. now apply ordinary_grammar_get_children.
  - eexists. reflexivity.
Qed.

(** C7, as amended: building a grammar raises GrammarError exactly when
    neither rules nor textual rules are given; and when every rule's symbol
    is not empty and has no character special to [re], [get_children] of
    each rule and of the grammar, and [possible_strings] at any depth from
    0 on, return. *)
Theorem only_missing_rules_raise :
  (forall (rules : option (list Rule.t)) (string_rules : option (list string)),
      Grammar.init rules string_rules = Raises GrammarError <->
      rules = None /\ string_rules = None)
  /\ (forall g : Grammar.t, ordinary_grammar g = true -> engine_total g).
Proof.
  split.
  - intros rules [srs|]; simpl.
    + split; [|intros [_ H]; discriminate H].
      destruct (Grammar.strings_to_rules srs) as [rs|e|] eqn:E; simpl;
        try discriminate.
      intros [= ->]. apply comprehension_raises in E as [s [_ E]].
      apply rule_of_string_raises in E. discriminate E.
    + destruct rules as [rs|]; split; try discriminate; try tauto.
      intros [H _]. discriminate H.
  - intros g Hg. split; [|split].
    + intros r w Hr. unfold ordinary_grammar in Hg.
      rewrite forallb_forall in Hg. apply Hg, ordinary_inv in Hr as [Hne Hp].
      eexists. now apply get_children_plain.
    + intros w. now apply ordinary_grammar_get_children.
    + intros d root _. rewrite possible_strings_levels.
      destruct (for_each_total (fun levels (_ : nat) => Grammar.next_level g levels)
                  (range d)
                  [[match root with
                    | None => all_symbols_root g
                    | Some root => root
                    end]]) as [levels ->].
      * intros levels _. now apply next_level_total.
      * eexists. reflexivity.
Qed.

Lemma only_missing_rules_raise_witness :
  ordinary_grammar (Grammar.mk [Rule.mk "A" ["0"; "1"; "0A"; "1A"]]) = true
  /\ engine_total (Grammar.mk [Rule.mk "A" ["0"; "1"; "0A"; "1A"]]).
Proof.
  split; [reflexivity|].
  apply (proj2 only_missing_rules_raise
               (Grammar.mk [Rule.mk "A" ["0"; "1"; "0A"; "1A"]])).
  reflexivity.
Defined.

(** C7 as stated fails for a grammar with a rule of the empty symbol:
    [Rule.get_children] raises ValueError on the empty sentence. *)
Lemma empty_symbol_raises :
  ~ engine_total (Grammar.mk [Rule.mk "" ["x"]]).
Proof.
  intros [H _].
  destruct (H (Rule.mk "" ["x"]) "") as [l E]; [left; reflexivity|].
  vm_compute in E. discriminate E.
Qed.

(** ** Building rules and grammars *)

(** C9: the rule read from ["A -> 0 | 1"] and the rule built from the
    symbol ["A"] and the patterns [["0"; "1"]] give the same children for
    every sentence. *)
Theorem rule_from_text_same_children :
  exists r1 r2 : Rule.t,
    Rule.init None None (Some "A -> 0 | 1") = Returns r1
    /\ Rule.init (Some "A") (Some ["0"; "1"]) None = Returns r2
    /\ forall w : string, Rule.get_children r1 w = Rule.get_children r2 w.
Proof.
  exists (Rule.mk "A" ["0"; "1"]), (Rule.mk "A" ["0"; "1"]).
  split; [vm_compute; reflexivity|]. split; reflexivity.
Qed.

(** C10: with both arguments given, the grammar is the one read from
    [string_rules], whatever [rules] is. *)
Theorem string_rules_take_precedence
        (rules rules' : list Rule.t) (string_rules : list string) :
  Grammar.init (Some rules) (Some string_rules) =
    (parsed <- comprehension (fun x => Rule.init None None (Some x))
                             string_rules ;;
     Returns (Grammar.mk parsed))
  /\ Grammar.init (Some rules) (Some string_rules) =
     Grammar.init (Some rules') (Some string_rules)
  /\ Grammar.init (Some rules) (Some string_rules) =
     Grammar.init None (Some string_rules).
Proof. repeat split. Qed.

(** ** The grammar of the script *)

(** C3, as amended: for the grammar read from ["A -> 0 | 1 | 0A | 1A"]
    and the default root, [possible_strings(1)] returns [["0"; "1"]] and
    [possible_strings(2)] returns [["0"; "1"; "00"; "01"; "10"; "11"]], in
    that order and without duplicates. *)
Theorem example_grammar_strings :
  exists g : Grammar.t,
    example_grammar = Returns g
    /\ Grammar.possible_strings g 1 None = Returns ["0"; "1"]
    /\ Grammar.possible_strings g 2 None =
       Returns ["0"; "1"; "00"; "01"; "10"; "11"]
    /\ NoDup ["0"; "1"; "00"; "01"; "10"; "11"].
Proof.
  exists (Grammar.mk [Rule.mk "A" ["0"; "1"; "0A"; "1A"]]).
  split; [vm_compute; reflexivity|].
  split; [vm_compute; reflexivity|].
  split; [vm_compute; reflexivity|].
  repeat (constructor; [simpl; intuition discriminate|]). constructor.
Qed.

(** C3 as stated fails: at depth 2 the children of ["0A"] come before
    those of ["1A"], so ["01"] comes before ["10"]. *)
Lemma example_grammar_depth_two_order :
  (g <- example_grammar ;; Grammar.possible_strings g 2 None) <>
  Returns ["0"; "1"; "00"; "10"; "01"; "11"].
Proof. vm_compute. discriminate. Qed.

(** * Further properties of the code *)

(** ** Splitting *)

Lemma split_upto_join (sep w : string) (n : nat) :
  Py.join sep (Py.split_upto sep w n) = w.
Proof.
  revert w; induction n as [|n IH]; intros w; [reflexivity|].
  cbn [Py.split_upto].
  destruct (Py.cut sep w) as [[b a]|] eqn:E; [|reflexivity].
  rewrite join_cons by apply split_upto_not_nil.
  rewrite IH. symmetry. now apply cut_Some.
Qed.

Lemma occurrences_from_length (s : string) (skip pos : nat) (w : string) :
  length (occurrences_from s skip pos w) <= String.length w.
Proof.
  revert skip pos; induction w as [|c w IH]; intros skip pos; [simpl; lia|].
  cbn [occurrences_from String.length].
  destruct skip as [|k]; [destruct (prefix s (String c w))|]; cbn [length];
    match goal with |- context [occurrences_from s ?k ?p w] =>
      specialize (IH k p) end; lia.
Qed.

Lemma occurrences_length (s w : string) :
  length (occurrences s w) <= String.length w.
Proof. apply occurrences_from_length. Qed.

Lemma length_split_upto (s w : string) (n : nat) :
  s <> "" ->
  length (Py.split_upto s w n) = S (Nat.min n (length (occurrences s w))).
Proof.
  intros Hne. revert w; induction n as [|n IH]; intros w; [reflexivity|].
  rewrite (occurrences_cut s Hne w). cbn [Py.split_upto].
  destruct (Py.cut s w) as [[b a]|]; [|reflexivity].
  cbn [length]. now rewrite IH, length_map.
Qed.

(** Once every occurrence is cut, allowing more cuts changes nothing. *)
Lemma split_upto_saturated (s w : string) (n : nat) :
  s <> "" -> length (occurrences s w) <= n ->
  Py.split_upto s w n = Py.split_upto s w (length (occurrences s w)).
Proof.
  intros Hne. revert w; induction n as [|n IH]; intros w Hn.
  - now replace (length (occurrences s w)) with 0 by lia.
  - rewrite (occurrences_cut s Hne w) in Hn |- *. cbn [Py.split_upto].
    destruct (Py.cut s w) as [[b a]|] eqn:E; [|reflexivity].
    cbn [length] in Hn |- *. rewrite length_map in Hn |- *.
    cbn [Py.split_upto]. rewrite E. f_equal. apply IH. lia.
Qed.

(** With every occurrence cut, no piece holds the separator. *)
Lemma pieces_without_separator (s w : string) (n : nat) :
  s <> "" -> length (occurrences s w) <= n ->
  Forall (fun piece => ~ is_substring s piece) (Py.split_upto s w n).
Proof.
  intros Hne. revert w; induction n as [|n IH]; intros w Hn.
  - constructor; [|constructor]. apply (occurrences_nil_iff s w Hne).
    destruct (occurrences s w); [reflexivity | simpl in Hn; lia].
  - rewrite (occurrences_cut s Hne w) in Hn. cbn [Py.split_upto].
    destruct (Py.cut s w) as [[b a]|] eqn:E.
    + cbn [length] in Hn. rewrite length_map in Hn.
      constructor; [|apply IH; lia].
      intros [x [y Hb]].
      pose proof (cut_leftmost s w b a (String.length x) E) as Hleft.
      apply cut_Some in E. subst w b.
      rewrite !append_assoc, drop_append, prefix_append in Hleft.
      pose proof (length_symbol_positive s Hne).
      rewrite !length_append in Hleft.
      assert (true = false) by (apply Hleft; lia). discriminate.
    + constructor; [|constructor].
      apply contains_false_iff. now apply cut_None.
Qed.

(** ** Reading a rule from text *)

Lemma string_to_rule_info_cases (s : string) :
  Rule.string_to_rule_info s =
  match Py.split_upto ARROW_SEPERATOR s (String.length s) with
  | [symbol; patterns] =>
      Returns (symbol,
               Py.split_upto RULE_DELIMETER patterns (String.length patterns))
  | _ => Raises ValueError
  end.
Proof.
  unfold Rule.string_to_rule_info, Py.split.
  change (ARROW_SEPERATOR =? "")%string with false.
  change (RULE_DELIMETER =? "")%string with false.
  cbn [bind Z.ltb Z.compare].
  destruct (Py.split_upto ARROW_SEPERATOR s _) as [|a [|b [|c parts]]];
    reflexivity.
Qed.

Lemma arrow_not_empty : ARROW_SEPERATOR <> "".
Proof. discriminate. Qed.

Lemma delimiter_not_empty : RULE_DELIMETER <> "".
Proof. discriminate. Qed.

Lemma rule_init_text_cases (s : string) :
  (length (occurrences ARROW_SEPERATOR s) = 1
   /\ exists r : Rule.t, Rule.init None None (Some s) = Returns r)
  \/ (length (occurrences ARROW_SEPERATOR s) <> 1
      /\ Rule.init None None (Some s) = Raises ValueError).
Proof.
  unfold Rule.init. rewrite string_to_rule_info_cases.
  pose proof (length_split_upto ARROW_SEPERATOR s (String.length s)
                                arrow_not_empty) as Hlen.
  pose proof (occurrences_length ARROW_SEPERATOR s) as Hle.
  rewrite Nat.min_r in Hlen by exact Hle.
  destruct (Nat.eq_dec (length (occurrences ARROW_SEPERATOR s)) 1) as [E|E].
  - left. split; [exact E|]. rewrite E in Hlen.
    destruct (Py.split_upto ARROW_SEPERATOR s _) as [|a [|b [|c parts]]];
      try discriminate Hlen.
    eexists. reflexivity.
  - right. split; [exact E|].
    destruct (Py.split_upto ARROW_SEPERATOR s _) as [|a [|b [|c parts]]];
      try reflexivity.
    simpl in Hlen. congruence.
Qed.

(** X1: a rule's text is read exactly when it holds the arrow once (by
    the scan from the left); any other text raises ValueError. *)
Theorem rule_text_needs_one_arrow (s : string) :
  if Nat.eqb (length (occurrences ARROW_SEPERATOR s)) 1
  then exists r : Rule.t, Rule.init None None (Some s) = Returns r
  else Rule.init None None (Some s) = Raises ValueError.
Proof.
  destruct (rule_init_text_cases s) as [[E H]|[E H]].
  - now rewrite E.
  - apply Nat.eqb_neq in E. now rewrite E.
Qed.

(** X2: writing a rule read from text back with the same separators gives
    the text again. *)
Theorem rule_text_round_trip (s : string) (r : Rule.t) :
  Rule.init None None (Some s) = Returns r ->
  (Rule.symbol r ++ ARROW_SEPERATOR
     ++ Py.join RULE_DELIMETER (Rule.patterns r))%string = s.
Proof.
  unfold Rule.init. rewrite string_to_rule_info_cases.
  pose proof (split_upto_join ARROW_SEPERATOR s (String.length s)) as Hjoin.
  destruct (Py.split_upto ARROW_SEPERATOR s _) as [|a [|b [|c parts]]];
    try discriminate.
  cbn [bind fst snd]. intros [= <-]. cbn [Rule.symbol Rule.patterns].
  now rewrite split_upto_join.
Qed.

Lemma rule_text_round_trip_witness :
  (Rule.symbol (Rule.mk "A" ["0"; "1"; "0A"; "1A"]) ++ ARROW_SEPERATOR
     ++ Py.join RULE_DELIMETER
          (Rule.patterns (Rule.mk "A" ["0"; "1"; "0A"; "1A"])))%string =
  "A -> 0 | 1 | 0A | 1A".
Proof.
  apply (rule_text_round_trip "A -> 0 | 1 | 0A | 1A").
  vm_compute. reflexivity.
Defined.

(** X3: a rule read from text has at least one pattern, no arrow in its
    symbol and no delimiter in any pattern. *)
Theorem rule_from_text_invariants (s : string) (r : Rule.t) :
  Rule.init None None (Some s) = Returns r ->
  Rule.patterns r <> []
  /\ ~ is_substring ARROW_SEPERATOR (Rule.symbol r)
  /\ Forall (fun p => ~ is_substring RULE_DELIMETER p) (Rule.patterns r).
Proof.
  unfold Rule.init. rewrite string_to_rule_info_cases.
  pose proof (pieces_without_separator ARROW_SEPERATOR s (String.length s)
                arrow_not_empty (occurrences_length _ _)) as Hpieces.
  destruct (Py.split_upto ARROW_SEPERATOR s _) as [|a [|b [|c parts]]];
    try discriminate.
  cbn [bind fst snd]. intros [= <-]. cbn [Rule.symbol Rule.patterns].
  split; [apply split_upto_not_nil|]. split.
  - now inversion Hpieces.
  - apply pieces_without_separator;
      [exact delimiter_not_empty | apply occurrences_length].
Qed.

Lemma rule_from_text_invariants_witness :
  Rule.patterns (Rule.mk "A" ["0"; "1"; "0A"; "1A"]) <> []
  /\ ~ is_substring ARROW_SEPERATOR (Rule.symbol (Rule.mk "A" ["0"; "1"; "0A"; "1A"]))
  /\ Forall (fun p => ~ is_substring RULE_DELIMETER p)
            (Rule.patterns (Rule.mk "A" ["0"; "1"; "0A"; "1A"])).
Proof.
  apply (rule_from_text_invariants "A -> 0 | 1 | 0A | 1A").
  vm_compute. reflexivity.
Defined.

(** X4: the helper [__string_to_rule] builds the rule the constructor
    builds from the same text, and fails as it fails. *)
Theorem string_to_rule_is_init (s : string) :
  Rule.string_to_rule s = Rule.init None None (Some s).
Proof.
  unfold Rule.string_to_rule, Rule.init.
  destruct (Rule.string_to_rule_info s) as [[symbol patterns]| |]; reflexivity.
Qed.

(** ** Reading a grammar from text *)

Lemma comprehension_Forall2 {A X : Type} (f : X -> outcome A)
      (xs : list X) (ys : list A) :
  comprehension f xs = Returns ys <->
  Forall2 (fun x y => f x = Returns y) xs ys.
Proof.
  revert ys; induction xs as [|x xs IH]; intros ys; simpl.
  - split; [intros [= <-]; constructor | intros H; inversion H; reflexivity].
  - split.
    + destruct (f x) as [y| |] eqn:E; simpl; try discriminate.
      destruct (comprehension f xs) as [ys'| |]; simpl; try discriminate.
      intros [= <-]. constructor; [exact E | now apply IH].
    + intros H. inversion H as [|x' y xs' ys' Hy Hrest]; subst.
      rewrite Hy. apply IH in Hrest. rewrite Hrest. reflexivity.
Qed.

Lemma comprehension_raises_iff {A X : Type} (f : X -> outcome A)
      (xs : list X) (e : exn) :
  (forall x, f x = Raises e \/ exists y, f x = Returns y) ->
  comprehension f xs = Raises e <-> Exists (fun x => f x = Raises e) xs.
Proof.
  intros Hf. induction xs as [|x xs IH]; simpl.
  - split; [discriminate | intros H; inversion H].
  - rewrite Exists_cons. destruct (Hf x) as [E|[y E]]; rewrite E; simpl.
    + tauto.
    + rewrite <- IH. destruct (comprehension f xs) as [ys|e'|]; simpl.
      * split; [discriminate | intros [H|H]; discriminate].
      * split; [intros H; right; exact H|].
        intros [H|H]; [discriminate | exact H].
      * split; [discriminate | intros [H|H]; discriminate].
Qed.

(** X5: a grammar is read from a list of texts exactly when each text
    reads as a rule, and then holds these rules in the order of the texts;
    it raises ValueError exactly when some text does not hold the arrow
    once. The [rules] argument plays no part. *)
Theorem grammar_from_text (rules : option (list Rule.t))
        (string_rules : list string) :
  (forall g : Grammar.t,
      Grammar.init rules (Some string_rules) = Returns g <->
      Forall2 (fun s r => Rule.init None None (Some s) = Returns r)
              string_rules (Grammar.rules g))
  /\ (Grammar.init rules (Some string_rules) = Raises ValueError <->
      Exists (fun s => length (occurrences ARROW_SEPERATOR s) <> 1)
             string_rules).
Proof.
  unfold Grammar.init, Grammar.strings_to_rules. split.
  - intros [rs]. cbn [Grammar.rules]. rewrite <- comprehension_Forall2.
    destruct (comprehension _ string_rules) as [rs'| |]; simpl;
      split; congruence.
  - transitivity (comprehension (fun x => Rule.init None None (Some x))
                                string_rules = Raises ValueError).
    { destruct (comprehension _ string_rules); simpl; split; congruence. }
    rewrite comprehension_raises_iff.
    + rewrite !Exists_exists. split; intros [s [Hs H]]; exists s;
        (split; [exact Hs|]);
        destruct (rule_init_text_cases s) as [[E [r Hr]]|[E Hr]];
        congruence.
    + intros s. destruct (rule_init_text_cases s) as [[_ Hr]|[_ Hr]]; auto.
Qed.

(** ** Replacing the n-th occurrence, out of range *)

Lemma replace_nth_substring_absent (s w p : string) (n : nat) :
  s <> "" -> Py.contains s w = false ->
  Rule.replace_nth_substring w s p n = Returns (p ++ w)%string.
Proof.
  intros Hne Hno. rewrite (replace_nth_substring_returns s Hne).
  apply cut_None in Hno.
  cbn [Py.split_upto]. rewrite Hno. reflexivity.
Qed.

(** X6: when the substring does not occur at all, the replacement is put
    in front of the string, for every [n] such that [n + 1] is a
    [maxsplit] that [str.split] takes, that is, at most [Py.maxsize]. *)
Theorem replace_without_occurrence (s w p : string) (n : nat) :
  s <> "" -> ~ is_substring s w ->
  (Z.of_nat n + 1 <= Py.maxsize)%Z ->
  Rule.replace_nth_substring w s p n = Returns (p ++ w)%string.
Proof.
  intros Hne Hno _. apply replace_nth_substring_absent; [exact Hne|].
  now apply contains_false_iff.
Qed.

Lemma replace_without_occurrence_witness :
  Rule.replace_nth_substring "0110" "A" "x" 2 = Returns "x0110".
Proof.
  apply (replace_without_occurrence "A" "0110" "x" 2).
  - discriminate.
  - apply contains_false_iff. reflexivity.
  - vm_compute. discriminate.
Defined.

(** X7: when there are occurrences and [n] is past the last of them, with
    [n + 1] at most [Py.maxsize], it is the last occurrence that is
    replaced. *)
Theorem replace_past_last_occurrence (s w p : string) (n : nat) :
  s <> "" ->
  0 < length (occurrences s w) ->
  length (occurrences s w) - 1 <= n ->
  (Z.of_nat n + 1 <= Py.maxsize)%Z ->
  Rule.replace_nth_substring w s p n =
  Returns (replace_occurrence s w (length (occurrences s w) - 1) p).
Proof.
  intros Hne Hpos Hn _. rewrite (replace_nth_substring_returns s Hne).
  rewrite (split_upto_saturated s w (S n) Hne) by lia.
  pose proof (split_join_replaces s Hne p w (length (occurrences s w) - 1))
    as H.
  replace (S (length (occurrences s w) - 1))
    with (length (occurrences s w)) in H by lia.
  rewrite H by lia. reflexivity.
Qed.

Lemma replace_past_last_occurrence_witness :
  Rule.replace_nth_substring "0A1A" "A" "x" 5 =
  Returns (replace_occurrence "A" "0A1A" (length (occurrences "A" "0A1A") - 1) "x").
Proof.
  apply (replace_past_last_occurrence "A" "0A1A" "x" 5).
  - discriminate.
  - vm_compute. lia.
  - vm_compute. lia.
  - vm_compute. discriminate.
Defined.

(** ** The empty symbol and the empty pattern list *)

Lemma scan_empty_pattern (w : string) :
  length (Py.scan [] 0 w) = S (String.length w).
Proof. induction w as [|c w IH]; simpl; [reflexivity | now rewrite IH]. Qed.

Lemma concat_nils {X Y : Type} (l : list X) :
  concat (map (fun _ => @nil Y) l) = [].
Proof. induction l as [|x l IH]; simpl; [reflexivity | exact IH]. Qed.

(** X8: a rule with the empty symbol raises ValueError on every sentence
    as soon as it has a pattern, and returns no child when it has none. *)
Theorem empty_symbol_children (P : list string) (w : string) :
  Rule.get_children (Rule.mk "" P) w =
  match P with
  | [] => Returns []
  | _ :: _ => Raises ValueError
  end.
Proof.
  rewrite get_children_loops. cbn [Rule.symbol Rule.patterns].
  unfold Py.findall. cbn [Py.sre_parse bind].
  rewrite scan_empty_pattern. destruct P as [|p P].
  - rewrite (comprehension_returns _ (fun _ => [])) by reflexivity.
    cbn [bind]. now rewrite concat_nils.
  - reflexivity.
Qed.

(** ** The length of a child *)

Lemma in_rule_children (r : Rule.t) (w child : string) :
  In child (rule_children r w) <->
  exists (i : nat) (p : string),
    i < length (occurrences (Rule.symbol r) w) /\ In p (Rule.patterns r)
    /\ child = replace_occurrence (Rule.symbol r) w i p.
Proof.
  unfold rule_children. rewrite in_concat. split.
  - intros [l [Hl Hc]]. apply in_map_iff in Hl as [i [<- Hi]].
    apply in_map_iff in Hc as [p [<- Hp]]. apply in_seq in Hi.
    exists i, p. repeat split; [lia | exact Hp].
  - intros [i [p [Hi [Hp ->]]]].
    exists (map (replace_occurrence (Rule.symbol r) w i) (Rule.patterns r)).
    split; [|now apply in_map].
    apply in_map_iff. exists i. split; [reflexivity|]. apply in_seq. lia.
Qed.

(** The [i]-th occurrence cuts the sentence in two, and replacing it puts
    the pattern between the two parts. *)
Lemma replace_occurrence_splits (s w : string) (i : nat) :
  s <> "" -> i < length (occurrences s w) ->
  exists before after : string,
    w = (before ++ s ++ after)%string
    /\ forall p, replace_occurrence s w i p = (before ++ p ++ after)%string.
Proof.
  intros Hne Hi. unfold replace_occurrence, replace_at.
  set (pos := nth i (occurrences s w) 0).
  exists (Py.take pos w), (Py.drop (pos + String.length s) w).
  split; [|reflexivity].
  destruct (occurrences_sound s w Hne) as [Hocc _].
  rewrite Forall_forall in Hocc.
  specialize (Hocc pos (nth_In _ 0 Hi)). apply prefix_split in Hocc.
  rewrite drop_drop in Hocc. rewrite <- Hocc. symmetry. apply take_drop.
Qed.

Lemma get_children_rule_children (r : Rule.t) (w : string) :
  ordinary (Rule.symbol r) = true ->
  Rule.get_children r w = Returns (rule_children r w).
Proof.
  intros H. apply ordinary_inv in H as [Hne Hplain].
  now apply get_children_plain.
Qed.

(** X9: under a rule with an ordinary symbol, a child is as long as the
    sentence, less the symbol, plus one of the patterns. *)
Theorem child_length (r : Rule.t) (w : string) (children : list string) :
  ordinary (Rule.symbol r) = true ->
  Rule.get_children r w = Returns children ->
  Forall (fun child =>
            exists p, In p (Rule.patterns r)
                      /\ String.length child + String.length (Rule.symbol r) =
                         String.length w + String.length p)
         children.
Proof.
  intros Hord. rewrite (get_children_rule_children r w Hord). intros [= <-].
  apply Forall_forall. intros child Hc.
  apply in_rule_children in Hc as [i [p [Hi [Hp ->]]]].
  apply ordinary_inv in Hord as [Hne _].
  destruct (replace_occurrence_splits _ w i Hne Hi) as [b [a [Hw Hr]]].
  exists p. split; [exact Hp|].
  rewrite Hr. apply (f_equal String.length) in Hw.
  rewrite !length_append in Hw |- *. lia.
Qed.

Lemma child_length_witness :
  Forall (fun child =>
            exists p, In p ["0"; "1"; "0A"; "1A"]
                      /\ String.length child + String.length "A" =
                         String.length "0A" + String.length p)
         ["00"; "01"; "00A"; "01A"].
Proof.
  apply (child_length (Rule.mk "A" ["0"; "1"; "0A"; "1A"]) "0A").
  - reflexivity.
  - vm_compute. reflexivity.
Defined.

(** ** Edges of the search *)

(** X10: a depth of zero or less runs no round of the search: the result
    is the root alone, kept if it passes the terminal test. *)
Theorem nonpositive_depth (g : Grammar.t) (d : Z) (root : string) :
  (d <= 0)%Z ->
  Grammar.possible_strings g d (Some root) =
  Returns (if Grammar.is_terminal (Grammar.get_symbols g) root
           then [root] else []).
Proof.
  intros Hd. rewrite possible_strings_levels, get_symbols_map.
  unfold range. replace (Z.to_nat d) with 0 by lia.
  cbn [seq for_each bind concat app filter]. reflexivity.
Qed.

Lemma nonpositive_depth_witness :
  Grammar.possible_strings (Grammar.mk [Rule.mk "A" ["0"; "1"]]) (-3)
                           (Some "01") =
  Returns (if Grammar.is_terminal
                (Grammar.get_symbols (Grammar.mk [Rule.mk "A" ["0"; "1"]]))
                "01"
           then ["01"] else []).
Proof.
  apply (nonpositive_depth (Grammar.mk [Rule.mk "A" ["0"; "1"]]) (-3) "01").
  lia.
Defined.

Lemma in_concatenation (s : string) (l : list string) :
  In s l -> is_substring s (fold_right append "" l).
Proof.
  induction l as [|x l IH]; intros H; [destruct H|].
  destruct H as [->|H].
  - exists "", (fold_right append "" l). reflexivity.
  - destruct (IH H) as [b [a E]]. exists (x ++ b)%string, a.
    cbn [fold_right]. now rewrite E, append_assoc.
Qed.

(** X11: the default root holds every symbol of the grammar, so it never
    passes the terminal test, and a search of depth 0 from it returns
    nothing. *)
Theorem default_root_is_not_terminal (g : Grammar.t) :
  Grammar.is_terminal (Grammar.get_symbols g) (Grammar.default_root g) = false
  /\ Grammar.possible_strings g 0 None = Returns [].
Proof.
  assert (H : Grammar.is_terminal (map Rule.symbol (Grammar.rules g))
                                  (all_symbols_root g) = false).
  { destruct (Grammar.is_terminal _ _) eqn:E; [|reflexivity].
    apply is_terminal_iff in E as [x [Hx Hno]].
    destruct Hno. now apply in_concatenation. }
  split.
  - now rewrite get_symbols_map, default_root_all_symbols.
  - rewrite possible_strings_levels.
    cbn [range Z.to_nat seq for_each bind concat app filter].
    now rewrite H.
Qed.

Lemma filter_none {X : Type} (f : X -> bool) (l : list X) :
  (forall x, f x = false) -> filter f l = [].
Proof.
  intros H. induction l as [|x l IH]; simpl; [reflexivity|].
  now rewrite H.
Qed.

(** X12: a grammar without rules returns nothing, whatever the depth and
    the root: with no symbol to miss, no sentence passes the terminal
    test. *)
Theorem no_rules_no_strings (d : Z) (root : option string) :
  Grammar.possible_strings (Grammar.mk []) d root = Returns [].
Proof.
  rewrite possible_strings_levels.
  destruct (for_each_total
              (fun levels (_ : nat) => Grammar.next_level (Grammar.mk []) levels)
              (range d)
              [[match root with
                | None => all_symbols_root (Grammar.mk [])
                | Some root => root
                end]]) as [levels ->].
  - intros levels _. now apply next_level_total.
  - cbn [bind]. now rewrite filter_none.
Qed.

(** ** The search as lists *)

Lemma Returns_inj {A : Type} (a b : A) : Returns a = Returns b -> a = b.
Proof. intros H. now injection H. Qed.

Lemma grammar_get_children_pure (g : Grammar.t) (w : string) :
  ordinary_grammar g = true ->
  Grammar.get_children g w = Returns (grammar_children g w).
Proof.
  unfold ordinary_grammar. rewrite forallb_forall. intros H.
  rewrite grammar_get_children_concat.
  rewrite (comprehension_returns _ (fun r => rule_children r w));
    [reflexivity|].
  intros r Hr. apply get_children_rule_children. now apply H.
Qed.

Lemma next_level_pure (g : Grammar.t) (levels : list (list string)) :
  ordinary_grammar g = true ->
  Grammar.next_level g levels =
  Returns (levels ++ [concat (map (grammar_children g) (last levels []))]).
Proof.
  intros Hg. unfold Grammar.next_level. rewrite for_each_extend.
  rewrite (comprehension_returns _ (grammar_children g));
    [reflexivity|].
  intros w _. now apply grammar_get_children_pure.
Qed.

Lemma levels_succ (g : Grammar.t) (root : string) (m : nat) :
  map (level g root) (seq 0 (S m)) ++ [level g root (S m)] =
  map (level g root) (seq 0 (S (S m))).
Proof. now rewrite (seq_S (S m)), map_app. Qed.

Lemma last_level (g : Grammar.t) (root : string) (m : nat) :
  last (map (level g root) (seq 0 (S m))) [] = level g root m.
Proof. rewrite seq_S, map_app. cbn [map]. apply last_last. Qed.

Lemma search_rounds (g : Grammar.t) (root : string) (a n m : nat) :
  ordinary_grammar g = true ->
  for_each (seq a n) (map (level g root) (seq 0 (S m)))
           (fun levels _ => Grammar.next_level g levels) =
  Returns (map (level g root) (seq 0 (S (m + n)))).
Proof.
  intros Hg. revert a m; induction n as [|n IH]; intros a m.
  - now rewrite Nat.add_0_r.
  - change (seq a (S n)) with (a :: seq (S a) n). cbn [for_each].
    rewrite (next_level_pure g _ Hg). cbn [bind].
    rewrite last_level.
    change (concat (map (grammar_children g) (level g root m)))
      with (level g root (S m)).
    rewrite levels_succ, IH. do 3 f_equal. lia.
Qed.

(** For a grammar of ordinary symbols the search returns, level after
    level, what passes the terminal test. *)
Lemma possible_strings_pure (g : Grammar.t) (d : Z) (root : option string) :
  ordinary_grammar g = true ->
  Grammar.possible_strings g d root =
  Returns
    (filter (Grammar.is_terminal (Grammar.get_symbols g))
            (concat (map (level g match root with
                                  | None => Grammar.default_root g
                                  | Some root => root
                                  end)
                         (seq 0 (S (Z.to_nat d)))))).
Proof.
  intros Hg. rewrite possible_strings_levels, default_root_all_symbols,
    get_symbols_map.
  unfold range.
  set (R := match root with
            | None => all_symbols_root g
            | Some root => root
            end).
  pose proof (search_rounds g R 0 (Z.to_nat d) 0 Hg) as H.
  change (map (level g R) (seq 0 1)) with [[R]] in H.
  rewrite H. reflexivity.
Qed.

(** ** The search against rewriting *)

Lemma in_grammar_children (g : Grammar.t) (w child : string) :
  In child (grammar_children g w) <->
  exists r, In r (Grammar.rules g) /\ In child (rule_children r w).
Proof.
  unfold grammar_children. rewrite in_concat. split.
  - intros [l [Hl Hc]]. apply in_map_iff in Hl as [r [<- Hr]]. now exists r.
  - intros [r [Hr Hc]]. exists (rule_children r w).
    split; [|exact Hc].
    now apply (in_map (fun r => rule_children r w)).
Qed.

Lemma grammar_children_rewrite (g : Grammar.t) (w w' : string) :
  ordinary_grammar g = true ->
  In w' (grammar_children g w) -> rewrites_to g w w'.
Proof.
  unfold ordinary_grammar. rewrite forallb_forall. intros Hg H.
  apply in_grammar_children in H as [r [Hr H]].
  apply in_rule_children in H as [i [p [Hi [Hp ->]]]].
  destruct (ordinary_inv _ (Hg r Hr)) as [Hne _].
  destruct (replace_occurrence_splits _ w i Hne Hi) as [b [a [Hw Hrep]]].
  exists r, p, b, a. repeat split; auto.
Qed.

(** A symbol of one character is found wherever it stands. *)
Lemma one_character_found (c : ascii) (before after : string) (pos : nat) :
  In (pos + String.length before)
     (occurrences_from (String c "") 0 pos (before ++ String c after)).
Proof.
  revert pos; induction before as [|d before IH]; intros pos.
  - cbn. destruct (ascii_dec c c) as [_|n]; [|now destruct n].
    destruct after; left; lia.
  - cbn [append occurrences_from String.length Nat.sub].
    specialize (IH (S pos)).
    replace (pos + S (String.length before))
      with (S pos + String.length before) by lia.
    destruct (prefix _ _); [right|]; exact IH.
Qed.

Lemma one_character_inv (s : string) :
  one_character s = true -> exists c, s = String c "".
Proof.
  destruct s as [|c [|d s]]; try discriminate. intros _. now exists c.
Qed.

Lemma one_character_grammar_ordinary (g : Grammar.t) :
  one_character_grammar g = true -> ordinary_grammar g = true.
Proof.
  unfold one_character_grammar, ordinary_grammar. rewrite !forallb_forall.
  intros H r Hr. specialize (H r Hr). now apply andb_true_iff in H.
Qed.

Lemma rewrite_grammar_children (g : Grammar.t) (w w' : string) :
  one_character_grammar g = true ->
  rewrites_to g w w' -> In w' (grammar_children g w).
Proof.
  unfold one_character_grammar. rewrite forallb_forall.
  intros Hg [r [p [b [a [Hr [Hp [Hw Hw']]]]]]].
  apply in_grammar_children. exists r. split; [exact Hr|].
  apply in_rule_children.
  specialize (Hg r Hr). apply andb_true_iff in Hg as [Hone _].
  apply one_character_inv in Hone as [c Hc]. rewrite Hc in Hw |- *.
  change (String c "" ++ a)%string with (String c a) in Hw.
  pose proof (one_character_found c b a 0) as Hin. rewrite <- Hw in Hin.
  fold (occurrences (String c "") w) in Hin.
  apply (In_nth _ _ 0) in Hin as [i [Hi Hnth]].
  exists i, p. split; [exact Hi|]. split; [exact Hp|].
  unfold replace_occurrence, replace_at. rewrite Hnth. cbn [Nat.add].
  subst w w'. rewrite take_append.
  change (String.length (String c "")) with 1.
  rewrite drop_append_more. reflexivity.
Qed.

Lemma level_sound (g : Grammar.t) (root : string) (n : nat) (w : string) :
  ordinary_grammar g = true ->
  In w (level g root n) -> derives g root n w.
Proof.
  intros Hg. revert w; induction n as [|n IH]; intros w.
  - intros [<-|[]]. constructor.
  - cbn [level]. rewrite in_concat. intros [l [Hl Hw]].
    apply in_map_iff in Hl as [v [<- Hv]].
    apply (derives_step g root n v); [now apply IH|].
    now apply grammar_children_rewrite.
Qed.

Lemma level_complete (g : Grammar.t) (root : string) (n : nat) (w : string) :
  one_character_grammar g = true ->
  derives g root n w -> In w (level g root n).
Proof.
  intros Hg H. induction H as [|n v w Hv IH Hstep].
  - left. reflexivity.
  - cbn [level]. apply in_concat. exists (grammar_children g v).
    split; [now apply in_map | now apply rewrite_grammar_children].
Qed.

Lemma in_levels (g : Grammar.t) (root : string) (depth : nat) (w : string) :
  In w (concat (map (level g root) (seq 0 (S depth)))) <->
  exists n, n <= depth /\ In w (level g root n).
Proof.
  rewrite in_concat. split.
  - intros [l [Hl Hw]]. apply in_map_iff in Hl as [n [<- Hn]].
    apply in_seq in Hn. exists n. split; [lia | exact Hw].
  - intros [n [Hn Hw]]. exists (level g root n).
    split; [|exact Hw]. apply in_map, in_seq. lia.
Qed.

(** X13: under a grammar of ordinary symbols, every child of a sentence is
    a one-step rewriting of it: an occurrence of a rule's symbol replaced
    by one of the rule's patterns. *)
Theorem children_are_rewritings (g : Grammar.t) (w : string)
        (children : list string) :
  ordinary_grammar g = true ->
  Grammar.get_children g w = Returns children ->
  forall w', In w' children -> rewrites_to g w w'.
Proof.
  intros Hg. rewrite (grammar_get_children_pure g w Hg). intros [= <-] w'.
  now apply grammar_children_rewrite.
Qed.

Lemma children_are_rewritings_witness :
  rewrites_to (Grammar.mk [Rule.mk "A" ["0"; "1"; "0A"; "1A"]]) "0A" "01".
Proof.
  apply (children_are_rewritings
           (Grammar.mk [Rule.mk "A" ["0"; "1"; "0A"; "1A"]]) "0A"
           ["00"; "01"; "00A"; "01A"]).
  - reflexivity.
  - vm_compute. reflexivity.
  - simpl. right. left. reflexivity.
Defined.

(** X14: when every symbol is one ordinary character, the children of a
    sentence are exactly its one-step rewritings. *)
Theorem children_are_all_rewritings (g : Grammar.t) (w : string) :
  one_character_grammar g = true ->
  exists children : list string,
    Grammar.get_children g w = Returns children
    /\ forall w', In w' children <-> rewrites_to g w w'.
Proof.
  intros Hg. pose proof (one_character_grammar_ordinary g Hg) as Hord.
  exists (grammar_children g w).
  split; [now apply grammar_get_children_pure|].
  intros w'. split.
  - now apply grammar_children_rewrite.
  - now apply rewrite_grammar_children.
Qed.

Lemma children_are_all_rewritings_witness :
  exists children : list string,
    Grammar.get_children (Grammar.mk [Rule.mk "A" ["0"; "1"; "0A"; "1A"]])
                         "0A" = Returns children
    /\ forall w', In w' children <->
                  rewrites_to (Grammar.mk [Rule.mk "A" ["0"; "1"; "0A"; "1A"]])
                              "0A" w'.
Proof.
  apply (children_are_all_rewritings
           (Grammar.mk [Rule.mk "A" ["0"; "1"; "0A"; "1A"]]) "0A").
  reflexivity.
Defined.

(** X15: under a grammar of ordinary symbols, every sentence the search
    returns passes the terminal test and is derived from the root in at
    most [search_depth] rewriting steps. *)
Theorem search_is_sound (g : Grammar.t) (d : Z) (root : string)
        (l : list string) :
  ordinary_grammar g = true ->
  Grammar.possible_strings g d (Some root) = Returns l ->
  forall w, In w l ->
            Grammar.is_terminal (Grammar.get_symbols g) w = true
            /\ exists n, n <= Z.to_nat d /\ derives g root n w.
Proof.
  intros Hg. rewrite (possible_strings_pure g d (Some root) Hg).
  intros E w Hw. apply Returns_inj in E. subst l.
  apply filter_In in Hw as [Hw Ht].
  split; [exact Ht|].
  apply in_levels in Hw as [n [Hn Hw]]. exists n.
  split; [exact Hn | now apply level_sound].
Qed.

Lemma search_is_sound_witness :
  Grammar.is_terminal
    (Grammar.get_symbols (Grammar.mk [Rule.mk "A" ["0"; "1"; "0A"; "1A"]]))
    "01" = true
  /\ exists n, n <= Z.to_nat 2 /\
               derives (Grammar.mk [Rule.mk "A" ["0"; "1"; "0A"; "1A"]])
                       "A" n "01".
Proof.
  apply (search_is_sound (Grammar.mk [Rule.mk "A" ["0"; "1"; "0A"; "1A"]]) 2 "A"
                         ["0"; "1"; "00"; "01"; "10"; "11"]).
  - reflexivity.
  - vm_compute. reflexivity.
  - simpl. right. right. right. left. reflexivity.
Defined.

(** X16: when every symbol is one ordinary character, the search returns
    exactly the sentences that pass the terminal test and are derived from
    the root in at most [search_depth] rewriting steps. *)
Theorem search_is_complete (g : Grammar.t) (d : Z) (root : string) :
  one_character_grammar g = true ->
  exists l : list string,
    Grammar.possible_strings g d (Some root) = Returns l
    /\ forall w, In w l <->
                 Grammar.is_terminal (Grammar.get_symbols g) w = true
                 /\ exists n, n <= Z.to_nat d /\ derives g root n w.
Proof.
  intros Hg. pose proof (one_character_grammar_ordinary g Hg) as Hord.
  eexists. split; [apply (possible_strings_pure g d (Some root) Hord)|].
  intros w. rewrite filter_In, in_levels. split.
  - intros [[n [Hn Hw]] Ht]. split; [exact Ht|]. exists n.
    split; [exact Hn | now apply level_sound].
  - intros [Ht [n [Hn Hw]]]. split; [|exact Ht]. exists n.
    split; [exact Hn | now apply level_complete].
Qed.

Lemma search_is_complete_witness :
  exists l : list string,
    Grammar.possible_strings (Grammar.mk [Rule.mk "A" ["0"; "1"; "0A"; "1A"]])
                             2 (Some "A") = Returns l
    /\ forall w, In w l <->
                 Grammar.is_terminal
                   (Grammar.get_symbols
                      (Grammar.mk [Rule.mk "A" ["0"; "1"; "0A"; "1A"]])) w = true
                 /\ exists n, n <= Z.to_nat 2 /\
                      derives (Grammar.mk [Rule.mk "A" ["0"; "1"; "0A"; "1A"]])
                              "A" n w.
Proof.
  apply (search_is_complete
           (Grammar.mk [Rule.mk "A" ["0"; "1"; "0A"; "1A"]]) 2 "A").
  reflexivity.
Defined.

(** ** The grammar of the script, at every depth *)

Lemma is_binary_app (a b : string) :
  is_binary (a ++ b) = is_binary a && is_binary b.
Proof.
  unfold is_binary. induction a as [|c a IH]; simpl; [reflexivity|].
  now rewrite IH, andb_assoc.
Qed.

(** The scan for ["A"] passes over binary digits. *)
Lemma scan_past_binary (b rest : string) (pos : nat) :
  is_binary b = true ->
  occurrences_from "A" 0 pos (b ++ rest) =
  occurrences_from "A" 0 (pos + String.length b) rest.
Proof.
  revert pos; induction b as [|c b IH]; intros pos Hb.
  - simpl. now rewrite Nat.add_0_r.
  - unfold is_binary in Hb. cbn [list_ascii_of_string forallb] in Hb.
    apply andb_true_iff in Hb as [Hc Hb].
    cbn [append occurrences_from prefix String.length].
    destruct (ascii_dec "A" c) as [<-|_]; [discriminate Hc|].
    rewrite (IH (S pos) Hb). f_equal. lia.
Qed.

Lemma no_symbol_in_binary (b : string) :
  is_binary b = true -> occurrences "A" b = [].
Proof.
  intros Hb. pose proof (scan_past_binary b "" 0 Hb) as E.
  now rewrite append_empty_r in E.
Qed.

Lemma children_of_binary (b : string) :
  is_binary b = true -> grammar_children script_grammar b = [].
Proof.
  intros Hb. unfold grammar_children, rule_children.
  cbn [script_grammar Grammar.rules map Rule.symbol Rule.patterns].
  now rewrite (no_symbol_in_binary b Hb).
Qed.

Lemma children_of_open (b : string) :
  is_binary b = true ->
  grammar_children script_grammar (b ++ "A") = open_sentences b.
Proof.
  intros Hb. unfold grammar_children, rule_children, replace_occurrence.
  cbn [script_grammar Grammar.rules map Rule.symbol Rule.patterns].
  unfold occurrences. rewrite (scan_past_binary b "A" 0 Hb).
  cbn [occurrences_from prefix length seq map concat app nth Nat.add
       String.length].
  destruct (ascii_dec "A" "A") as [_|n]; [|now destruct n].
  cbn [length seq map concat app nth]. unfold replace_at.
  rewrite take_append, drop_append_more. reflexivity.
Qed.

Lemma binary_is_binary (n : nat) (b : string) :
  In b (binary n) -> is_binary b = true.
Proof.
  revert b; induction n as [|n IH]; intros b.
  - intros [<-|[]]. reflexivity.
  - cbn [binary]. rewrite in_flat_map. intros [a [Ha [<-|[<-|[]]]]];
      rewrite is_binary_app, (IH a Ha); reflexivity.
Qed.

(** One round of the search on the open sentences over [l]. *)
Lemma expand_open (l : list string) :
  (forall b, In b l -> is_binary b = true) ->
  concat (map (grammar_children script_grammar) (flat_map open_sentences l)) =
  flat_map open_sentences (flat_map close_digits l).
Proof.
  induction l as [|b l IH]; intros Hl; [reflexivity|].
  cbn [flat_map]. rewrite map_app, concat_app, flat_map_app.
  rewrite IH by (intros a Ha; apply Hl; right; exact Ha).
  f_equal. assert (Hb : is_binary b = true) by (apply Hl; left; reflexivity).
  assert (H0 : is_binary (b ++ "0") = true)
    by (rewrite is_binary_app, Hb; reflexivity).
  assert (H1 : is_binary (b ++ "1") = true)
    by (rewrite is_binary_app, Hb; reflexivity).
  unfold open_sentences at 1, close_digits.
  cbn [map concat flat_map].
  rewrite (children_of_binary _ H0), (children_of_binary _ H1).
  replace (b ++ "0A")%string with ((b ++ "0") ++ "A")%string
    by (now rewrite append_assoc).
  replace (b ++ "1A")%string with ((b ++ "1") ++ "A")%string
    by (now rewrite append_assoc).
  rewrite (children_of_open _ H0), (children_of_open _ H1).
  cbn [app]. now rewrite !app_nil_r.
Qed.

Lemma level_of_script (k : nat) :
  level script_grammar "A" (S k) = flat_map open_sentences (binary k).
Proof.
  induction k as [|k IH]; [reflexivity|].
  change (level script_grammar "A" (S (S k)))
    with (concat (map (grammar_children script_grammar)
                      (level script_grammar "A" (S k)))).
  rewrite IH. apply expand_open. apply binary_is_binary.
Qed.

Lemma terminal_in_script (w : string) :
  Grammar.is_terminal (Grammar.get_symbols script_grammar) w =
  negb (Py.contains "A" w).
Proof.
  unfold Grammar.is_terminal.
  cbn [Grammar.get_symbols script_grammar Grammar.rules fold_left app
       Rule.symbol filter].
  now destruct (Py.contains "A" w).
Qed.

Lemma binary_is_terminal (b : string) :
  is_binary b = true ->
  Grammar.is_terminal (Grammar.get_symbols script_grammar) b = true.
Proof.
  intros Hb. rewrite terminal_in_script. apply negb_true_iff.
  apply contains_false_iff.
  apply (occurrences_nil_iff "A" b); [discriminate|].
  now apply no_symbol_in_binary.
Qed.

Lemma open_is_not_terminal (b : string) :
  Grammar.is_terminal (Grammar.get_symbols script_grammar) (b ++ "A") = false.
Proof.
  rewrite terminal_in_script. apply negb_false_iff. apply contains_iff.
  exists b, "". reflexivity.
Qed.

Lemma filter_open (l : list string) :
  (forall b, In b l -> is_binary b = true) ->
  filter (Grammar.is_terminal (Grammar.get_symbols script_grammar))
         (flat_map open_sentences l) =
  flat_map close_digits l.
Proof.
  induction l as [|b l IH]; intros Hl; [reflexivity|].
  cbn [flat_map]. rewrite filter_app.
  rewrite IH by (intros a Ha; apply Hl; right; exact Ha).
  f_equal. assert (Hb : is_binary b = true) by (apply Hl; left; reflexivity).
  unfold open_sentences, close_digits. cbn [filter].
  rewrite !binary_is_terminal by (rewrite is_binary_app, Hb; reflexivity).
  replace (b ++ "0A")%string with ((b ++ "0") ++ "A")%string
    by (now rewrite append_assoc).
  replace (b ++ "1A")%string with ((b ++ "1") ++ "A")%string
    by (now rewrite append_assoc).
  now rewrite !open_is_not_terminal.
Qed.

Lemma filter_concat {X : Type} (f : X -> bool) (ls : list (list X)) :
  filter f (concat ls) = concat (map (filter f) ls).
Proof.
  induction ls as [|l ls IH]; simpl; [reflexivity|].
  now rewrite filter_app, IH.
Qed.

Lemma snoc_string (w : string) :
  w <> "" -> exists b c, w = (b ++ String c "")%string.
Proof.
  induction w as [|d w IH]; intros H; [contradiction|].
  destruct w as [|e w].
  - now exists "", d.
  - destruct IH as [b [c E]]; [discriminate|].
    exists (String d b), c. simpl. now rewrite E.
Qed.

(** [binary n] holds the strings of [n] binary digits, each of them. *)
Lemma in_binary (n : nat) (w : string) :
  In w (binary n) <-> String.length w = n /\ is_binary w = true.
Proof.
  revert w; induction n as [|n IH]; intros w.
  - simpl. split.
    + intros [<-|[]]. split; reflexivity.
    + intros [H _]. destruct w; [now left | discriminate].
  - cbn [binary]. rewrite in_flat_map. split.
    + intros [b [Hb Hw]]. apply IH in Hb as [Hlen Hbin].
      destruct Hw as [<-|[<-|[]]];
        rewrite length_append, is_binary_app, Hlen, Hbin; simpl;
        split; (lia || reflexivity).
    + intros [Hlen Hbin].
      destruct (snoc_string w) as [b [c ->]];
        [intros ->; discriminate Hlen|].
      rewrite length_append in Hlen. rewrite is_binary_app in Hbin.
      apply andb_true_iff in Hbin as [Hb Hc]. simpl in Hlen.
      exists b. split; [apply IH; split; [lia | exact Hb]|].
      unfold is_binary in Hc. cbn in Hc. rewrite andb_true_r in Hc.
      apply orb_true_iff in Hc as [Hc|Hc]; apply Ascii.eqb_eq in Hc;
        subst c; [left | right; left]; reflexivity.
Qed.

Lemma length_binary (n : nat) : length (binary n) = 2 ^ n.
Proof.
  induction n as [|n IH]; [reflexivity|].
  cbn [binary Nat.pow]. rewrite <- IH. generalize (binary n). intros l.
  induction l as [|b l IHl]; simpl; [reflexivity|]. rewrite IHl. lia.
Qed.

(** X17: the grammar the script builds, searched from its default root to
    depth [n], returns the strings of one binary digit in lexicographic
    order, then those of two, and so on up to [n] digits; [binary k] holds
    each string of [k] binary digits, [2 ^ k] in all. *)
Theorem script_strings (n : nat) :
  example_grammar = Returns script_grammar
  /\ Grammar.possible_strings script_grammar (Z.of_nat n) None =
     Returns (concat (map binary (seq 1 n)))
  /\ (forall (k : nat) (w : string),
         In w (binary k) <-> String.length w = k /\ is_binary w = true)
  /\ (forall k : nat, length (binary k) = 2 ^ k).
Proof.
  split; [vm_compute; reflexivity|].
  split; [|split; [exact in_binary | exact length_binary]].
  rewrite possible_strings_pure by reflexivity.
  change (Grammar.default_root script_grammar) with "A".
  rewrite Nat2Z.id. f_equal.
  change (seq 0 (S n)) with (0 :: seq 1 n).
  cbn [map concat level]. rewrite filter_app.
  assert (HA : Grammar.is_terminal (Grammar.get_symbols script_grammar) "A"
               = false) by exact (open_is_not_terminal "").
  cbn [filter]. rewrite HA. cbn [app].
  rewrite filter_concat, map_map. f_equal.
  apply map_ext_in. intros k Hk. apply in_seq in Hk.
  destruct k as [|k]; [lia|].
  rewrite level_of_script, filter_open by apply binary_is_binary.
  reflexivity.
Qed.

(** ** How many children *)

Lemma apart_span (len lo hi : nat) (l : list nat) :
  l <> [] ->
  Forall (fun p => lo <= p /\ p + len <= hi) l ->
  apart len l ->
  lo + length l * len <= hi.
Proof.
  revert lo; induction l as [|p l IH]; intros lo Hne Hall Hap;
    [contradiction|].
  inversion Hall as [|p' l' [Hlo Hhi] Hrest]; subst.
  destruct Hap as [Hgap Hap]. destruct l as [|q l]; [simpl; lia|].
  assert (H : p + len + length (q :: l) * len <= hi).
  { apply IH; [discriminate| |exact Hap].
    rewrite Forall_forall in Hrest, Hgap |- *.
    intros x Hx. split; [now apply Hgap | now apply Hrest]. }
  cbn [length] in H |- *. lia.
Qed.

Lemma occurrences_fit (s w : string) :
  s <> "" -> length (occurrences s w) * String.length s <= String.length w.
Proof.
  intros Hne. destruct (occurrences_sound s w Hne) as [Hocc Hap].
  destruct (occurrences s w) as [|p l] eqn:E; [simpl; lia|].
  apply (apart_span (String.length s) 0 (String.length w) (p :: l));
    [discriminate | | exact Hap].
  eapply Forall_impl; [|exact Hocc]. intros q Hq. split; [lia|].
  apply prefix_length in Hq. rewrite length_drop in Hq.
  pose proof (length_symbol_positive s Hne). lia.
Qed.

(** X18: a rule with an ordinary symbol gives a sentence at most as many
    children as the symbol fits in the sentence, times the number of
    patterns. *)
Theorem children_count_bound (r : Rule.t) (w : string)
        (children : list string) :
  ordinary (Rule.symbol r) = true ->
  Rule.get_children r w = Returns children ->
  length children * String.length (Rule.symbol r) <=
  String.length w * length (Rule.patterns r).
Proof.
  intros Hord. rewrite (get_children_rule_children r w Hord).
  intros E. apply Returns_inj in E. subst children.
  unfold rule_children. rewrite length_blocks, length_seq.
  apply ordinary_inv in Hord as [Hne _].
  pose proof (occurrences_fit (Rule.symbol r) w Hne). nia.
Qed.

Lemma children_count_bound_witness :
  length ["xcABAB"; "ABcxAB"; "ABcABx"] * String.length "AB" <=
  String.length "ABcABAB" * length ["x"].
Proof.
  apply (children_count_bound (Rule.mk "AB" ["x"]) "ABcABAB").
  - reflexivity.
  - vm_compute. reflexivity.
Defined.

(** ** A symbol that [re] reads as a pattern *)

Lemma scan_any (w : string) :
  Py.contains (String Py.newline "") w = false ->
  length (Py.scan [Py.ANY] 0 w) = String.length w.
Proof.
  induction w as [|c w IH]; [reflexivity|].
  cbn [Py.contains prefix]. rewrite orb_false_iff. intros [Hc Hw].
  cbn [Py.scan Py.match_here Py.item_matches length Nat.sub String.length].
  destruct (ascii_dec Py.newline c) as [<-|Hn].
  - destruct w; discriminate Hc.
  - destruct (Ascii.eqb_spec c Py.newline) as [->|_]; [now destruct Hn|].
    cbn [negb andb]. destruct w; cbn [length]; now rewrite IH.
Qed.

(** X19: for the rule whose symbol is a single dot, on a sentence with
    no dot and no newline, the number of rounds is the number of
    characters of the sentence ([re.findall] matches each), and each
    round puts every pattern in front of the whole sentence (nothing is
    there to split on). *)
Theorem dot_symbol_children (P : list string) (w : string) :
  Py.contains "." w = false ->
  Py.contains (String Py.newline "") w = false ->
  Rule.get_children (Rule.mk "." P) w =
  Returns (concat (map (fun _ => map (fun p => (p ++ w)%string) P)
                       (seq 0 (String.length w)))).
Proof.
  intros Hdot Hnl. rewrite get_children_loops.
  cbn [Rule.symbol Rule.patterns]. unfold Py.findall.
  change (Py.sre_parse ".") with (Returns [Py.ANY]). cbn [bind].
  rewrite (scan_any w Hnl).
  rewrite (comprehension_returns _ (fun _ => map (fun p => (p ++ w)%string) P));
    [reflexivity|].
  intros i _. apply comprehension_returns. intros p _.
  apply replace_nth_substring_absent; [discriminate | exact Hdot].
Qed.

Lemma dot_symbol_children_witness :
  Rule.get_children (Rule.mk "." ["x"; "y"]) "ab" =
  Returns (concat (map (fun _ => map (fun p => (p ++ "ab")%string) ["x"; "y"])
                       (seq 0 (String.length "ab")))).
Proof.
  apply (dot_symbol_children ["x"; "y"] "ab"); reflexivity.
Defined.




